(** * XML-to-dictionary conversion ([python_xml_examples.py])

    A verification development for [PythonXMLUtilities.xml_to_dict] and its
    local helper [xml_to_dict_recursive] (lines 266-307 of
    [XML-Parsing/python_xml_examples.py]).

    The development has two embeddings of the helper, both written from the
    Python source:

    - a functional one, [xml_to_dict_recursive], in which the local
      dictionary [result] is an insertion-ordered association list that is
      threaded through the loop, and
    - an imperative one, [Imp.xml_to_dict_recursive], which executes the same
      statements over a store of mutable [dict] and [list] objects, may raise
      Python exceptions, and carries a bound on the depth of nested calls.

    The second is related to the first by [run_spec] and
    [imperative_agrees_with_functional]. *)

From Stdlib Require Import NArith ZArith.
From stdpp Require Import base tactics option list strings gmap.

Open Scope list_scope.

#[local] Set Warnings "-register-all".

(** ** Python strings *)

(** A Python [str] is a sequence of Unicode code points. *)
Definition pystr : Type := list N.

(** Literal strings of the source (ASCII only) as [pystr]. *)
Fixpoint str (s : string) : pystr :=
  match s with
  | EmptyString => []
  | String a s' => Ascii.N_of_ascii a :: str s'
  end.

Arguments str : simpl never.

(** [c.isspace()] for one code point: the code points that CPython classifies
    as whitespace, the set that [str.strip()] removes when it is called
    without argument. *)
Definition isspace (c : N) : bool :=
  ((9 <=? c) && (c <=? 13) || (28 <=? c) && (c <=? 31)
   || (c =? 32) || (c =? 133) || (c =? 160) || (c =? 5760)
   || (8192 <=? c) && (c <=? 8202)
   || (c =? 8232) || (c =? 8233) || (c =? 8239) || (c =? 8287)
   || (c =? 12288))%N.

Fixpoint lstrip (s : pystr) : pystr :=
  match s with
  | c :: s' => if isspace c then lstrip s' else s
  | [] => []
  end.

Definition rstrip (s : pystr) : pystr := rev (lstrip (rev s)).

(** [s.strip()] *)
Definition strip (s : pystr) : pystr := rstrip (lstrip s).

(** Truth value of a [str]: non-empty. *)
Definition str_truthy (s : pystr) : bool :=
  match s with [] => false | _ :: _ => true end.

(** ** Python dictionaries

    A [dict] keeps its keys in insertion order and holds each key once.
    Assigning to a key that is present replaces the value in place; assigning
    to a new key adds it at the end. *)
Abbreviation dict V := (list (pystr * V)).

Section dict.
Context {V : Type}.

(** [d.get(k)], [None] when the key is absent *)
Fixpoint dict_get (d : dict V) (k : pystr) : option V :=
  match d with
  | [] => None
  | (k', v) :: d' => if decide (k' = k) then Some v else dict_get d' k
  end.

(** [k in d] *)
Definition dict_mem (d : dict V) (k : pystr) : bool :=
  match dict_get d k with Some _ => true | None => false end.

(** [d[k] = v] *)
Fixpoint dict_set (d : dict V) (k : pystr) (v : V) : dict V :=
  match d with
  | [] => [(k, v)]
  | (k', v') :: d' =>
      if decide (k' = k) then (k, v) :: d' else (k', v') :: dict_set d' k v
  end.

(** [list(d.keys())] *)
Definition dict_keys (d : dict V) : list pystr := map fst d.

(** Truth value of a [dict]: non-empty. *)
Definition dict_truthy (d : dict V) : bool :=
  match d with [] => false | _ :: _ => true end.
End dict.

(** ** The data model *)

(** [xml.etree.ElementTree.Element], as far as the converter reads it: [tag],
    [attrib], [text] ([None] or a [str]) and the child elements in document
    order ([len(element)] and [for child in element]).  The type [A] is the
    representation of the [attrib] dictionary: its contents in the functional
    embedding, its address in the store in the imperative one. *)
Inductive Element (A : Type) : Type :=
  Elem { tag : pystr;
         attrib : A;
         text : option pystr;
         children : list (Element A) }.

Arguments Elem {A} _ _ _ _.
Arguments tag {A} _.
Arguments attrib {A} _.
Arguments text {A} _.
Arguments children {A} _.

(** The contents of an [attrib] dictionary: attribute name to attribute
    value, both [str]. *)
Definition attrs : Type := dict pystr.

(** What the converter returns: a [str], a [dict] with [str] keys, or a
    [list]. *)
Inductive value : Type :=
| VStr (s : pystr)
| VDict (d : list (pystr * value))
| VList (l : list value).

(** [isinstance(v, list)] *)
Definition isinstance_list (v : value) : bool :=
  match v with VList _ => true | _ => false end.

(** An [attrib] dictionary as a value. *)
Definition attrib_value (a : attrs) : value :=
  VDict (map (λ kv, (kv.1, VStr kv.2)) a).

(** ** The converter, functionally

    [xml_to_dict_recursive] (lines 272-297), block by block. *)

(** The body of [for child in element]: one child is added to [result]. *)
Definition add_child (conv : Element attrs → value)
    (result : dict value) (child : Element attrs) : dict value :=
  let child_data := conv child in
  match dict_get result (tag child) with
  | Some cur =>
      (* Multiple elements with same tag - convert to list *)
      let l := match cur with VList l => l | _ => [cur] end in
      dict_set result (tag child) (VList (l ++ [child_data]))
  | None => dict_set result (tag child) child_data
  end.

(** [result] after the attribute block (lines 274-278). *)
Definition add_attributes (element : Element attrs) : dict value :=
  let result := [] in
  if dict_truthy (attrib element)
  then dict_set result (str "@attributes") (attrib_value (attrib element))
  else result.

(** The text block (lines 281-284): either the function returns the stripped
    text at once ([inl]) or it goes on with [result] ([inr]). *)
Definition add_text (element : Element attrs) (result : dict value)
  : pystr + dict value :=
  match text element with
  | Some t =>
      if str_truthy t && str_truthy (strip t) then
        if length (children element) =? 0 then inl (strip t)
        else inr (dict_set result (str "text") (VStr (strip t)))
      else inr result
  | None => inr result
  end.

Fixpoint xml_to_dict_recursive (element : Element attrs) : value :=
  match add_text element (add_attributes element) with
  | inl s => VStr s
  | inr result =>
      VDict (fold_left (add_child xml_to_dict_recursive)
                       (children element) result)
  end.

(** The expression [{root.tag: xml_to_dict_recursive(root)}] of [xml_to_dict]
    (line 301). *)
Definition xml_to_dict (root : Element attrs) : value :=
  VDict (dict_set [] (tag root) (xml_to_dict_recursive root)).

(** ** Vocabulary for the statements *)

(** The children of [element] whose tag is [N], in document order. *)
Definition children_with_tag {A} (N : pystr) (element : Element A)
  : list (Element A) :=
  filter (λ c, tag c = N) (children element).

(** What the loop leaves under one key: [init] is the entry before the loop
    and [vs] are the converted children with that tag, in document order. *)
Definition stored (init : option value) (vs : list value) : option value :=
  match vs with
  | [] => init
  | v :: vs' =>
      match init with
      | None => Some (match vs' with [] => v | _ :: _ => VList (v :: vs') end)
      | Some (VList l) => Some (VList (l ++ vs))
      | Some cur => Some (VList (cur :: vs))
      end
  end.

(** A key that [result] holds for the element itself when the loop starts:
    ["@attributes"] when the element has attributes, ["text"] when its
    stripped text is not empty. *)
Definition own_key (element : Element attrs) (k : pystr) : Prop :=
  (k = str "@attributes" ∧ attrib element ≠ [])
  ∨ (k = str "text" ∧ ∃ t, text element = Some t ∧ strip t ≠ []).

(** Where lists may occur in a value: [shaped true v] allows [v] to be a
    list, as an entry of a dictionary may be; [shaped false v] does not.  The
    entries of a dictionary may be lists, the items of a list may not. *)
Fixpoint shaped (may_be_list : bool) (v : value) : bool :=
  match v with
  | VStr _ => true
  | VDict d => forallb (λ kv, shaped true kv.2) d
  | VList l => may_be_list && forallb (shaped false) l
  end.

(** The number of elements on the longest path from [element] down to a
    leaf. *)
Fixpoint depth {A} (element : Element A) : nat :=
  match element with
  | Elem _ _ _ cs => S (foldr Nat.max 0 (map depth cs))
  end.

(** ** Induction on element trees *)

Section Element_induction.
Context {A : Type} (P : Element A → Prop).
Hypothesis step : ∀ t a x cs, Forall P cs → P (Elem t a x cs).

Fixpoint Element_ind_children (element : Element A) : P element :=
  match element with
  | Elem t a x cs =>
      step t a x cs
        ((fix all (l : list (Element A)) : Forall P l :=
            match l with
            | [] => @List.Forall_nil _ P
            | c :: l' =>
                @List.Forall_cons _ P c l' (Element_ind_children c) (all l')
            end) cs)
  end.
End Element_induction.

(** ** Induction on values *)

Section value_induction.
Context (P : value → Prop).
Hypothesis on_str : ∀ s, P (VStr s).
Hypothesis on_dict : ∀ d, Forall (λ kv, P kv.2) d → P (VDict d).
Hypothesis on_list : ∀ l, Forall P l → P (VList l).

Fixpoint value_ind_nested (v : value) : P v :=
  match v with
  | VStr s => on_str s
  | VDict d =>
      on_dict d
        ((fix all (d : list (pystr * value)) : Forall (λ kv, P kv.2) d :=
            match d with
            | [] => @List.Forall_nil _ _
            | kv :: d' =>
                @List.Forall_cons _ (λ kv, P kv.2) kv d'
                                  (value_ind_nested kv.2) (all d')
            end) d)
  | VList l =>
      on_list l
        ((fix all (l : list value) : Forall P l :=
            match l with
            | [] => @List.Forall_nil _ _
            | v' :: l' =>
                @List.Forall_cons _ P v' l' (value_ind_nested v') (all l')
            end) l)
  end.
End value_induction.

(** ** The converter, imperatively

    The same statements over a store of mutable objects.  A [dict] or [list]
    is an object of the store and is referred to by its address; a [str]
    cannot be changed and is kept by value.  [result['@attributes'] =
    element.attrib] stores the address of the element's own dictionary, and
    [result[child.tag].append(child_data)] changes the list object that the
    entry refers to, whatever else refers to it. *)
Module Imp.

Abbreviation loc := nat.

(** What a variable, a dictionary entry or a list item holds. *)
Inductive ref : Type :=
| RStr (s : pystr)
| RLoc (l : loc).

Inductive obj : Type :=
| ODict (d : dict ref)
| OList (l : list ref).

(** The store: the object at address [l] is [h !! l]; a new object gets the
    next free address. *)
Abbreviation heap := (list obj).

Inductive exn : Type :=
| RecursionError   (* the calls are nested deeper than the limit *)
| KeyError         (* [d[k]] for a key that [d] does not hold *)
| AttributeError   (* [x.append] for an [x] that is not a list *)
| TypeError        (* a [dict] operation on what is not a [dict] *)
| Fault.           (* an address that holds no object *)

(** Statements: from a store to an exception or a result and a store. *)
Definition M (A : Type) : Type := heap → exn + (A * heap).

Definition ret {A} (x : A) : M A := λ h, inr (x, h).

Definition raise {A} (e : exn) : M A := λ _, inl e.

Definition bind {A B} (f : A → M B) (m : M A) : M B :=
  λ h, match m h with
       | inl e => inl e
       | inr (x, h') => f x h'
       end.

(** [x ← m; f] and [m;; f] are stdpp's notations for [bind]. *)
#[global] Instance M_ret : MRet M := @ret.
#[global] Instance M_bind : MBind M := @bind.

(** [{}] *)
Definition new_dict : M loc := λ h, inr (length h, h ++ [ODict []]).

(** [[x]] *)
Definition new_list (items : list ref) : M loc :=
  λ h, inr (length h, h ++ [OList items]).

(** The dictionary that [r] refers to.  The source applies the dictionary
    operations to [result] only. *)
Definition the_dict (r : ref) : M (dict ref) :=
  λ h, match r with
       | RStr _ => inl TypeError
       | RLoc l => match h !! l with
                   | Some (ODict d) => inr (d, h)
                   | Some (OList _) => inl TypeError
                   | None => inl Fault
                   end
       end.

(** [if d:] for a dictionary *)
Definition truthy (r : ref) : M bool :=
  d ← the_dict r; ret (dict_truthy d).

(** [k in d] *)
Definition contains (r : ref) (k : pystr) : M bool :=
  d ← the_dict r; ret (dict_mem d k).

(** [d[k]] *)
Definition getitem (r : ref) (k : pystr) : M ref :=
  d ← the_dict r;
  match dict_get d k with
  | Some x => ret x
  | None => raise KeyError
  end.

(** [d[k] = x] *)
Definition setitem (r : ref) (k : pystr) (x : ref) : M unit :=
  d ← the_dict r;
  match r with
  | RLoc l => λ h, inr (tt, <[l := ODict (dict_set d k x)]> h)
  | RStr _ => raise TypeError
  end.

(** [isinstance(x, list)] *)
Definition isinstance_list (x : ref) : M bool :=
  λ h, match x with
       | RStr _ => inr (false, h)
       | RLoc l => match h !! l with
                   | Some (OList _) => inr (true, h)
                   | Some (ODict _) => inr (false, h)
                   | None => inl Fault
                   end
       end.

(** [x.append(y)] *)
Definition append (x y : ref) : M unit :=
  λ h, match x with
       | RStr _ => inl AttributeError
       | RLoc l => match h !! l with
                   | Some (OList items) =>
                       inr (tt, <[l := OList (items ++ [y])]> h)
                   | Some (ODict _) => inl AttributeError
                   | None => inl Fault
                   end
       end.

(** [for x in xs: body] *)
Fixpoint for_each {A} (xs : list A) (body : A → M unit) : M unit :=
  match xs with
  | [] => ret tt
  | x :: xs' => body x;; for_each xs' body
  end.

(** Lines 276-278. *)
Definition add_attributes (element : Element loc) (result : ref) : M unit :=
  a ← truthy (RLoc (attrib element));
  if a : bool then setitem result (str "@attributes") (RLoc (attrib element))
  else ret tt.

(** Lines 281-284: [Some s] when the function returns [s] at line 283. *)
Definition add_text (element : Element loc) (result : ref)
  : M (option pystr) :=
  match text element with
  | Some t =>
      if str_truthy t && str_truthy (strip t) then
        if length (children element) =? 0 then ret (Some (strip t))
        else (setitem result (str "text") (RStr (strip t));; ret None)
      else ret None
  | None => ret None
  end.

(** Lines 288-295, the body of the loop. *)
Definition add_child (conv : Element loc → M ref)
    (result : ref) (child : Element loc) : M unit :=
  child_data ← conv child;
  c ← contains result (tag child);
  if c : bool then
    cur ← getitem result (tag child);
    is_list ← isinstance_list cur;
    (if negb is_list : bool then
       cur ← getitem result (tag child);
       l ← new_list [cur];
       setitem result (tag child) (RLoc l)
     else ret tt);;
    cur ← getitem result (tag child);
    append cur child_data
  else setitem result (tag child) child_data.

(** [limit] is the number of nested calls that the interpreter still
    allows. *)
Fixpoint xml_to_dict_recursive (limit : nat) (element : Element loc)
  : M ref :=
  match limit with
  | 0 => raise RecursionError
  | S limit' =>
      l ← new_dict;
      let result := RLoc l in
      add_attributes element result;;
      early ← add_text element result;
      match early : option pystr with
      | Some s => ret (RStr s)
      | None =>
          for_each (children element)
                   (add_child (xml_to_dict_recursive limit') result);;
          ret result
      end
  end.

(** *** Reading the store *)

(** The contents of the [attrib] dictionary at address [l]. *)
Definition attrs_at (h : heap) (l : loc) : attrs :=
  match h !! l with
  | Some (ODict d) =>
      flat_map (λ kr, match kr.2 with RStr s => [(kr.1, s)] | RLoc _ => [] end)
               d
  | _ => []
  end.

(** The element tree that the store holds: every [attrib] address is
    replaced by the contents of the dictionary there. *)
Fixpoint view (h : heap) (element : Element loc) : Element attrs :=
  match element with
  | Elem t a x cs => Elem t (attrs_at h a) x (map (view h) cs)
  end.

Definition is_str (r : ref) : bool :=
  match r with RStr _ => true | RLoc _ => false end.

(** A valid element tree: every [attrib] address is below [b] and holds a
    dictionary from [str] to [str]. *)
Definition attrib_ok (b : loc) (h : heap) (l : loc) : bool :=
  (l <? b)
  && match h !! l with
     | Some (ODict d) => forallb (λ kr, is_str kr.2) d
     | _ => false
     end.

Fixpoint valid (b : loc) (h : heap) (element : Element loc) : bool :=
  match element with
  | Elem _ a _ cs => attrib_ok b h a && forallb (valid b h) cs
  end.

(** [denotes F h v r]: in the store [h] the reference [r] stands for the
    value [v], and every object that is read to see this has its address
    in [F]. *)
Fixpoint denotes (F : loc → Prop) (h : heap) (v : value) (r : ref) : Prop :=
  match v with
  | VStr s => r = RStr s
  | VDict d =>
      ∃ l d', r = RLoc l ∧ F l ∧ h !! l = Some (ODict d')
              ∧ (fix entries (d : list (pystr * value)) (d' : dict ref) :=
                   match d, d' with
                   | [], [] => True
                   | kv :: d, kr :: d' =>
                       kv.1 = kr.1 ∧ denotes F h kv.2 kr.2 ∧ entries d d'
                   | _, _ => False
                   end) d d'
  | VList vs =>
      ∃ l rs, r = RLoc l ∧ F l ∧ h !! l = Some (OList rs)
              ∧ (fix items (vs : list value) (rs : list ref) :=
                   match vs, rs with
                   | [], [] => True
                   | v :: vs, r :: rs => denotes F h v r ∧ items vs rs
                   | _, _ => False
                   end) vs rs
  end.

(** The value behind [r], when there is one. *)
Definition reads (h : heap) (r : ref) (v : value) : Prop :=
  denotes (λ _, True) h v r.

(** [f] is applied to the items of a list in turn, each in the store that the
    one before has left. *)
Definition store_list {A B} (f : A → heap → B * heap)
  : list A → heap → list B * heap :=
  fix go xs h :=
    match xs with
    | [] => ([], h)
    | x :: xs' =>
        let '(y, h1) := f x h in
        let '(ys, h2) := go xs' h1 in
        (y :: ys, h2)
    end.

(** An element tree is put into the store: one new dictionary object for each
    [attrib], parents before children. *)
Fixpoint store_tree (element : Element attrs) (h : heap)
  : Element loc * heap :=
  match element with
  | Elem t a x cs =>
      let h1 := h ++ [ODict (map (λ kv, (kv.1, RStr kv.2)) a)] in
      let '(cs', h2) := store_list store_tree cs h1 in
      (Elem t (length h) x cs', h2)
  end.

End Imp.

(** *** Vocabulary for the loop and for calls *)

(** The addresses below [b] and those from [lo] up to [hi]: the element tree
    that a call was given and the objects that the call has made. *)
Definition within (b lo hi : Imp.loc) : Imp.loc → Prop :=
  λ l, l < b ∨ (lo ≤ l < hi).

(** While the loop of a call runs, the call changes its [result] at [lr] and
    the lists [own] that it has made for repeated tags, and nothing else. *)
Definition frozen (b lr : Imp.loc) (own : list Imp.loc) : Imp.loc → Prop :=
  λ l, l < b ∨ (lr < l ∧ l ∉ own).

(** An entry of [result] in the store against the entry of the functional
    [result]: a value that is not a list and is no longer changed, or one of
    the call's own lists, whose items are no longer changed. *)
Definition entry_rel (b lr : Imp.loc) (own : list Imp.loc) (h : Imp.heap)
    (kv : pystr * value) (kr : pystr * Imp.ref) : Prop :=
  kv.1 = kr.1
  ∧ ((isinstance_list kv.2 = false
      ∧ Imp.denotes (frozen b lr own) h kv.2 kr.2)
     ∨ ∃ ll vs rs,
         kv.2 = VList vs ∧ kr.2 = Imp.RLoc ll ∧ ll ∈ own
         ∧ h !! ll = Some (Imp.OList rs)
         ∧ Forall2 (Imp.denotes (frozen b lr own) h) vs rs).

(** The state of the loop: the store [h] against the functional [result]
    [d].  [h0] is the store in which the call started. *)
Definition loop_inv (b lr : Imp.loc) (h0 h : Imp.heap) (d : dict value)
  : Prop :=
  ∃ (d' : dict Imp.ref) (own : list Imp.loc),
    h !! lr = Some (Imp.ODict d')
    ∧ Forall2 (entry_rel b lr own h) d d'
    ∧ (∀ l, l ∈ own → lr < l < length h)
    ∧ (∀ i j ki kj l,
         l ∈ own → d' !! i = Some (ki, Imp.RLoc l) →
         d' !! j = Some (kj, Imp.RLoc l) → i = j)
    ∧ (∀ l, l < lr → h !! l = h0 !! l).

(** A call [conv c] in a store that holds the valid element tree [c] below
    [b]: it returns, the store is extended and otherwise unchanged, and the
    returned reference stands for the functional conversion of [c].  The
    reference is a [str] or the address of a new dictionary. *)
Definition call_ok (b : Imp.loc) (conv : Element Imp.loc → Imp.M Imp.ref)
    (c : Element Imp.loc) : Prop :=
  ∀ h, b ≤ length h → Imp.valid b h c = true →
    ∃ r hn,
      conv c h = inr (r, h ++ hn)
      ∧ Imp.denotes (within b (length h) (length (h ++ hn))) (h ++ hn)
                    (xml_to_dict_recursive (Imp.view h c)) r
      ∧ match r with
        | Imp.RStr _ => True
        | Imp.RLoc l =>
            length h ≤ l ∧ ∃ d, (h ++ hn) !! l = Some (Imp.ODict d)
        end.

(** ** The SAX handlers

    [xml.sax.parseString] reads a document and calls the methods of the
    handler it was given, one call for each start tag, each run of character
    data and each end tag, in document order.  The character data of one
    element may come in several calls.  Both handlers define [startElement],
    [characters] and [endElement] and inherit the other methods of
    [ContentHandler], which do nothing. *)
Inductive event : Type :=
| StartElement (name : pystr) (attrs : dict pystr)
| Characters (content : pystr)
| EndElement (name : pystr).

(** The exception that [float] and [int] raise for a string that is not a
    number; the handlers do not catch it. *)
Inductive handler_exn : Type := ValueError.

(** [BookSAXHandler] (lines 146-179). *)
Module BookSAXHandler.
Section float.
Context {F : Type}.

(** [float(s)]: [None] when it raises [ValueError]. *)
Variable float : pystr → option F.

(** What a book dictionary holds: [None], a [str] or a [float]. *)
Inductive item : Type :=
| INone
| IStr (s : pystr)
| IFloat (x : F).

Record handler : Type := Handler {
  books : list (dict item);
  current_book : dict item;
  current_tag : pystr;
  current_content : pystr }.

(** [__init__] *)
Definition init : handler :=
  {| books := []; current_book := []; current_tag := [];
     current_content := [] |}.

(** [attrs.get(k)] *)
Definition get (attrs : dict pystr) (k : pystr) : item :=
  match dict_get attrs k with Some s => IStr s | None => INone end.

Definition startElement (self : handler) (name : pystr)
    (attrs : dict pystr) : handler :=
  let self := {| books := books self; current_book := current_book self;
                 current_tag := name; current_content := [] |} in
  if decide (name = str "book") then
    {| books := books self;
       current_book := [ (str "id", get attrs (str "id"));
                         (str "category", get attrs (str "category")) ];
       current_tag := current_tag self;
       current_content := current_content self |}
  else if decide (name = str "price") then
    {| books := books self;
       current_book := dict_set (current_book self) (str "currency")
                                (get attrs (str "currency"));
       current_tag := current_tag self;
       current_content := current_content self |}
  else self.

Definition characters (self : handler) (content : pystr) : handler :=
  {| books := books self; current_book := current_book self;
     current_tag := current_tag self;
     current_content := current_content self ++ strip content |}.

(** The names in the list of line 174. *)
Definition text_fields : list pystr :=
  [str "title"; str "author"; str "published"; str "description"].

Definition endElement (self : handler) (name : pystr)
  : handler_exn + handler :=
  if decide (name = str "book") then
    (* [self.books.append(self.current_book.copy())]: the items of a book
       dictionary cannot be changed, so the copy is the dictionary's value *)
    inr {| books := books self ++ [current_book self];
           current_book := [];
           current_tag := current_tag self;
           current_content := [] |}
  else if decide (name ∈ text_fields) then
    inr {| books := books self;
           current_book := dict_set (current_book self) name
                                    (IStr (current_content self));
           current_tag := current_tag self;
           current_content := [] |}
  else if decide (name = str "price") then
    match float (current_content self) with
    | Some x =>
        inr {| books := books self;
               current_book := dict_set (current_book self) (str "price")
                                        (IFloat x);
               current_tag := current_tag self;
               current_content := [] |}
    | None => inl ValueError
    end
  else
    inr {| books := books self; current_book := current_book self;
           current_tag := current_tag self; current_content := [] |}.

(** One call of the parser. *)
Definition handle (self : handler) (e : event) : handler_exn + handler :=
  match e with
  | StartElement name attrs => inr (startElement self name attrs)
  | Characters content => inr (characters self content)
  | EndElement name => endElement self name
  end.

(** The calls of the parser in order, up to the first exception. *)
Fixpoint parse (self : handler) (es : list event) : handler_exn + handler :=
  match es with
  | [] => inr self
  | e :: es' =>
      match handle self e with
      | inr self' => parse self' es'
      | inl exn => inl exn
      end
  end.
End float.

Arguments item : clear implicits.
Arguments handler : clear implicits.
Arguments init {F}.
Arguments INone {F}.
Arguments IStr {F} _.
End BookSAXHandler.

(** [StatisticsSAXHandler] (lines 181-217).  The fields of [stats] are the
    first five fields of the record. *)
Module StatisticsSAXHandler.
Section numbers.
Context {F : Type}.

(** [float(s)] and [int(s)]: [None] when they raise [ValueError]. *)
Variable float : pystr → option F.
Variable int : pystr → option Z.

(** [0.0] and [+] on [float]. *)
Variable fzero : F.
Variable fadd : F → F → F.

Record handler : Type := Handler {
  total_books : Z;
  categories : dict Z;
  total_value : F;
  newest_year : Z;
  authors : gset pystr;
  current_tag : pystr;
  current_content : pystr;
  current_category : pystr }.

(** [__init__] *)
Definition init : handler :=
  {| total_books := 0%Z; categories := []; total_value := fzero;
     newest_year := 0%Z; authors := ∅; current_tag := [];
     current_content := []; current_category := [] |}.

(** [d[k]] for a [defaultdict(int)] *)
Definition count (d : dict Z) (k : pystr) : Z := default 0%Z (dict_get d k).

Definition startElement (self : handler) (name : pystr)
    (attrs : dict pystr) : handler :=
  if decide (name = str "book") then
    let category := default (str "unknown") (dict_get attrs (str "category")) in
    {| total_books := (total_books self + 1)%Z;
       categories := dict_set (categories self) category
                              (count (categories self) category + 1)%Z;
       total_value := total_value self;
       newest_year := newest_year self;
       authors := authors self;
       current_tag := name;
       current_content := [];
       current_category := category |}
  else
    {| total_books := total_books self; categories := categories self;
       total_value := total_value self; newest_year := newest_year self;
       authors := authors self; current_tag := name;
       current_content := [];
       current_category := current_category self |}.

Definition characters (self : handler) (content : pystr) : handler :=
  {| total_books := total_books self; categories := categories self;
     total_value := total_value self; newest_year := newest_year self;
     authors := authors self; current_tag := current_tag self;
     current_content := current_content self ++ strip content;
     current_category := current_category self |}.

Definition endElement (self : handler) (name : pystr)
  : handler_exn + handler :=
  if decide (name = str "price") then
    match float (current_content self) with
    | Some x =>
        inr {| total_books := total_books self;
               categories := categories self;
               total_value := fadd (total_value self) x;
               newest_year := newest_year self;
               authors := authors self; current_tag := current_tag self;
               current_content := [];
               current_category := current_category self |}
    | None => inl ValueError
    end
  else if decide (name = str "published") then
    match int (current_content self) with
    | Some year =>
        inr {| total_books := total_books self;
               categories := categories self;
               total_value := total_value self;
               newest_year := Z.max (newest_year self) year;
               authors := authors self; current_tag := current_tag self;
               current_content := [];
               current_category := current_category self |}
    | None => inl ValueError
    end
  else if decide (name = str "author") then
    inr {| total_books := total_books self; categories := categories self;
           total_value := total_value self; newest_year := newest_year self;
           authors := {[ current_content self ]} ∪ authors self;
           current_tag := current_tag self; current_content := [];
           current_category := current_category self |}
  else
    inr {| total_books := total_books self; categories := categories self;
           total_value := total_value self; newest_year := newest_year self;
           authors := authors self; current_tag := current_tag self;
           current_content := [];
           current_category := current_category self |}.

Definition handle (self : handler) (e : event) : handler_exn + handler :=
  match e with
  | StartElement name attrs => inr (startElement self name attrs)
  | Characters content => inr (characters self content)
  | EndElement name => endElement self name
  end.

Fixpoint parse (self : handler) (es : list event) : handler_exn + handler :=
  match es with
  | [] => inr self
  | e :: es' =>
      match handle self e with
      | inr self' => parse self' es'
      | inl exn => inl exn
      end
  end.
End numbers.

Arguments handler : clear implicits.
End StatisticsSAXHandler.

(** *** Vocabulary for the statements about the handlers *)

(** The character data of a list of [characters] calls as the handlers keep
    it: every piece stripped, the pieces joined. *)
Definition joined (chunks : list pystr) : pystr :=
  concat (strip <$> chunks).

Definition is_characters (e : event) : bool :=
  match e with Characters _ => true | _ => false end.

(** The categories of the [book] start tags of a list of calls, in order:
    [attrs.get('category', 'unknown')] for each. *)
Fixpoint book_categories (es : list event) : list pystr :=
  match es with
  | [] => []
  | StartElement name attrs :: es' =>
      if decide (name = str "book")
      then default (str "unknown") (dict_get attrs (str "category"))
           :: book_categories es'
      else book_categories es'
  | _ :: es' => book_categories es'
  end.

Definition is_book_end (e : event) : bool :=
  match e with
  | EndElement name => bool_decide (name = str "book")
  | _ => false
  end.

(** The number of [book] end tags in a list of calls. *)
Definition book_ends (es : list event) : nat :=
  length (List.filter is_book_end es).

(** The sum of the values of a dictionary of counts. *)
Definition total (d : dict Z) : Z := foldr Z.add 0%Z (snd <$> d).

(** A call that assigns to the key [k] of the unfinished book: the end tag of
    a text field assigns to the key of its name, the end tag of [price] to
    ["price"], the start tag of [price] to ["currency"]. *)
Definition assigns (k : pystr) (e : event) : bool :=
  match e with
  | StartElement name _ =>
      bool_decide (name = str "price" ∧ k = str "currency")
  | EndElement name =>
      bool_decide ((name ∈ BookSAXHandler.text_fields ∧ k = name)
                   ∨ (name = str "price" ∧ k = str "price"))
  | Characters _ => false
  end.

(** A call that is neither the start tag nor the end tag of [book]. *)
Definition inside_book (e : event) : bool :=
  match e with
  | StartElement name _ | EndElement name => bool_decide (name ≠ str "book")
  | Characters _ => true
  end.

(** ** Vocabulary for the keys of a result *)

(** The keys that [result] holds for the element itself, in the order in
    which lines 277-284 assign them. *)
Definition own_keys (element : Element attrs) : list pystr :=
  (if dict_truthy (attrib element) then [str "@attributes"] else [])
  ++ match text element with
     | Some t => if str_truthy (strip t) then [str "text"] else []
     | None => []
     end.

(** One more key is seen: it is added at the end unless it is there. *)
Definition see (seen : list pystr) (k : pystr) : list pystr :=
  if decide (k ∈ seen) then seen else seen ++ [k].

(** The keys of a list in the order of their first occurrence, each once. *)
Definition first_seen (ks : list pystr) : list pystr := fold_left see ks [].
(** ** The sample document

    [BOOKS_XML] (lines 16-39) as the tree that [ET.fromstring] builds from
    it.  The text of an element with children is the white space before its
    first child: a newline and the indentation. *)
Module Sample.
Definition indent (n : nat) : option pystr := Some (10%N :: repeat 32%N n).

Definition leaf (t : string) (a : attrs) (s : string) : Element attrs :=
  Elem (str t) a (Some (str s)) [].

Definition book (id category title author currency price published
                 description : string) : Element attrs :=
  Elem (str "book")
       [(str "id", str id); (str "category", str category)]
       (indent 8)
       [ leaf "title" [] title;
         leaf "author" [] author;
         leaf "price" [(str "currency", str currency)] price;
         leaf "published" [] published;
         leaf "description" [] description ].

Definition book1 : Element attrs :=
  book "1" "programming" "Clean Code" "Robert C. Martin" "USD" "29.99"
       "2008" "A guide to writing readable, maintainable code".
Definition book2 : Element attrs :=
  book "2" "database" "SQL Fundamentals" "John Smith" "EUR" "24.50"
       "2020" "Complete guide to SQL and database design".
Definition book3 : Element attrs :=
  book "3" "web" "Modern JavaScript" "Sarah Johnson" "USD" "34.99"
       "2021" "ES6+ features and modern development practices".

(** The root element, [root] in [xml_to_dict]. *)
Definition library : Element attrs :=
  Elem (str "library") [(str "name", str "Tech Library")] (indent 4)
       [book1; book2; book3].

(** [<price currency="USD">29.99</price>], the third child of [book1]. *)
Definition price1 : Element attrs :=
  leaf "price" [(str "currency", str "USD")] "29.99".

(** [<a>hello<text>x</text></a>]: mixed content with a child element whose
    tag is [text]. *)
Definition mixed : Element attrs :=
  Elem (str "a") [] (Some (str "hello")) [leaf "text" [] "x"].

(** [<a>hello<text>x</text><text>y</text></a>] *)
Definition mixed2 : Element attrs :=
  Elem (str "a") [] (Some (str "hello"))
       [leaf "text" [] "x"; leaf "text" [] "y"].

(** What [json.dumps] prints for one book: the attributes of the book, then
    one string for each child; the [currency] of the price is not there. *)
Definition book_json (id category title author price published
                      description : string) : value :=
  VDict [ (str "@attributes",
           VDict [(str "id", VStr (str id));
                  (str "category", VStr (str category))]);
          (str "title", VStr (str title));
          (str "author", VStr (str author));
          (str "price", VStr (str price));
          (str "published", VStr (str published));
          (str "description", VStr (str description)) ].

(** What [xml_to_dict] prints for the sample document. *)
Definition library_json : value :=
  VDict
    [ (str "library",
       VDict
         [ (str "@attributes",
            VDict [(str "name", VStr (str "Tech Library"))]);
           (str "book",
            VList
              [ book_json "1" "programming" "Clean Code" "Robert C. Martin"
                          "29.99" "2008"
                          "A guide to writing readable, maintainable code";
                book_json "2" "database" "SQL Fundamentals" "John Smith"
                          "24.50" "2020"
                          "Complete guide to SQL and database design";
                book_json "3" "web" "Modern JavaScript" "Sarah Johnson"
                          "34.99" "2021"
                          "ES6+ features and modern development practices" ])
         ]) ].

(** The sample document in an otherwise empty store: the element tree and
    the store that holds its [attrib] dictionaries. *)
Definition library_in_store : Element Imp.loc * Imp.heap :=
  Imp.store_tree library [].

(** The calls of the parser for a document with one book, the title in two
    pieces:
    [<library><book id="1" category="programming"> <title>Clean Code</title>
    <author>Robert C. Martin</author><price currency="USD">29.99</price>
    <published>2008</published></book></library>]. *)
Definition before_title : list event :=
  [ StartElement (str "library") [];
    StartElement (str "book")
                 [(str "id", str "1"); (str "category", str "programming")];
    Characters (str " ") ].

Definition title_pieces : list pystr := [str "Clean "; str "Code"].

Definition before_author : list event :=
  before_title
  ++ StartElement (str "title") []
     :: (Characters <$> title_pieces) ++ [EndElement (str "title")].

Definition before_price : list event :=
  before_author
  ++ [ StartElement (str "author") [];
       Characters (str "Robert C. Martin");
       EndElement (str "author") ].

Definition before_published : list event :=
  before_price
  ++ [ StartElement (str "price") [(str "currency", str "USD")];
       Characters (str "29.99");
       EndElement (str "price") ].

Definition after_published : list event :=
  [EndElement (str "book"); EndElement (str "library")].

Definition one_book : list event :=
  before_published
  ++ [ StartElement (str "published") [];
       Characters (str "2008");
       EndElement (str "published") ]
  ++ after_published.

(** The calls between the start tag and the end tag of the book. *)
Definition book_body : list event :=
  [ Characters (str " ");
    StartElement (str "title") [];
    Characters (str "Clean "); Characters (str "Code");
    EndElement (str "title");
    StartElement (str "author") [];
    Characters (str "Robert C. Martin");
    EndElement (str "author");
    StartElement (str "price") [(str "currency", str "USD")];
    Characters (str "29.99");
    EndElement (str "price");
    StartElement (str "published") [];
    Characters (str "2008");
    EndElement (str "published") ].

(** Stand-ins for [float] and [int] on the strings of the sample: a [float]
    is kept as the string it was read from, a sum as the two strings with
    [+] between them. *)
Definition digit (c : N) : bool := ((48 <=? c) && (c <=? 57))%N.

Definition sample_float (s : pystr) : option pystr :=
  if str_truthy s && forallb (λ c, digit c || (c =? 46)%N) s
  then Some s else None.

Definition sample_int (s : pystr) : option Z :=
  if str_truthy s && forallb digit s
  then Some (fold_left (λ n c, 10 * n + (Z.of_N c - 48))%Z s 0%Z)
  else None.

Definition sample_fadd (x y : pystr) : pystr := x ++ str "+" ++ y.

(** The handlers after a list of calls; the new handler if the parse
    raises. *)
Definition book_handler_after (es : list event)
  : BookSAXHandler.handler pystr :=
  match BookSAXHandler.parse sample_float BookSAXHandler.init es with
  | inr self => self
  | inl _ => BookSAXHandler.init
  end.

Definition stats_handler_after (es : list event)
  : StatisticsSAXHandler.handler pystr :=
  match StatisticsSAXHandler.parse sample_float sample_int sample_fadd
          (StatisticsSAXHandler.init (str "0.0")) es with
  | inr self => self
  | inl _ => StatisticsSAXHandler.init (str "0.0")
  end.
End Sample.
(** ** Strings and dictionaries: basic facts *)

Lemma lstrip_all_space (s : pystr) :
  forallb isspace s = true → lstrip s = [].
Proof.
  induction s as [|c s IH]; simpl; [done|].
  intros [Hc Hs]%andb_true_iff. rewrite Hc. by apply IH.
Qed.

Lemma strip_all_space (s : pystr) :
  forallb isspace s = true → strip s = [].
Proof.
  intros Hs. unfold strip, rstrip. by rewrite (lstrip_all_space s Hs).
Qed.

Lemma strip_nil : strip [] = [].
Proof. reflexivity. Qed.

Lemma str_truthy_spec (s : pystr) : str_truthy s = true ↔ s ≠ [].
Proof. by destruct s. Qed.

Lemma strip_nonempty_truthy (t : pystr) :
  strip t ≠ [] → str_truthy t && str_truthy (strip t) = true.
Proof.
  intros Hne. apply andb_true_iff. split; apply str_truthy_spec; [|done].
  intros ->. by apply Hne.
Qed.

Section dict_facts.
Context {V : Type}.
Implicit Types (d : dict V) (k : pystr) (v : V).

Lemma dict_get_set_eq d k v : dict_get (dict_set d k v) k = Some v.
Proof.
  induction d as [|[k' v'] d IH]; simpl.
  - by rewrite decide_True.
  - destruct (decide (k' = k)) as [->|Hne]; simpl.
    + by rewrite decide_True.
    + by rewrite decide_False.
Qed.

Lemma dict_get_set_ne d k k' v :
  k ≠ k' → dict_get (dict_set d k v) k' = dict_get d k'.
Proof.
  intros Hne. induction d as [|[k0 v0] d IH]; simpl.
  - by rewrite decide_False.
  - destruct (decide (k0 = k)) as [->|Hk0]; simpl.
    + by rewrite !decide_False.
    + by rewrite IH.
Qed.

Lemma dict_mem_spec d k : dict_mem d k = true ↔ is_Some (dict_get d k).
Proof.
  unfold dict_mem. by destruct (dict_get d k) as [x|]; split.
Qed.

(** Assigning to a key that is present leaves the keys as they are;
    assigning to a new key adds it at the end. *)
Lemma dict_keys_set d k v :
  dict_keys (dict_set d k v)
  = if dict_mem d k then dict_keys d else dict_keys d ++ [k].
Proof.
  unfold dict_mem, dict_keys.
  induction d as [|[k' v'] d IH]; simpl; [done|].
  destruct (decide (k' = k)) as [->|Hne]; simpl; [done|].
  rewrite IH. by destruct (dict_get d k).
Qed.
End dict_facts.

(** ** The functional converter: its equation and the loop *)

Lemma xml_to_dict_recursive_eq (element : Element attrs) :
  xml_to_dict_recursive element
  = match add_text element (add_attributes element) with
    | inl s => VStr s
    | inr result =>
        VDict (fold_left (add_child xml_to_dict_recursive)
                         (children element) result)
    end.
Proof. by destruct element. Qed.

(** The converter returns [element.text.strip()] or [result]: never a list. *)
Lemma xml_to_dict_recursive_not_list (element : Element attrs) :
  isinstance_list (xml_to_dict_recursive element) = false.
Proof.
  rewrite xml_to_dict_recursive_eq.
  by destruct (add_text element (add_attributes element)).
Qed.

Section loop.
Variable conv : Element attrs → value.
Hypothesis conv_not_list : ∀ c, isinstance_list (conv c) = false.

Lemma add_child_get_eq (result : dict value) (child : Element attrs) :
  dict_get (add_child conv result child) (tag child)
  = stored (dict_get result (tag child)) [conv child].
Proof.
  unfold add_child.
  destruct (dict_get result (tag child)) as [cur|];
    rewrite dict_get_set_eq; [|done].
  by destruct cur.
Qed.

Lemma add_child_get_ne (result : dict value) (child : Element attrs) N :
  tag child ≠ N →
  dict_get (add_child conv result child) N = dict_get result N.
Proof.
  intros Hne. unfold add_child.
  destruct (dict_get result (tag child)); by rewrite dict_get_set_ne.
Qed.

Lemma stored_snoc (init : option value) (v : value) (vs : list value) :
  isinstance_list v = false →
  stored (stored init [v]) vs = stored init (v :: vs).
Proof.
  intros Hv. destruct vs as [|v' vs]; [done|].
  destruct init as [[s|d|l]|]; simpl; try done.
  - by rewrite <- app_assoc.
  - by destruct v.
Qed.

Lemma fold_add_child_get (cs : list (Element attrs)) (result : dict value) N :
  dict_get (fold_left (add_child conv) cs result) N
  = stored (dict_get result N) (conv <$> filter (λ c, tag c = N) cs).
Proof.
  revert result. induction cs as [|c cs IH]; intros result; simpl; [done|].
  rewrite IH. destruct (decide (tag c = N)) as [<-|Hne].
  - rewrite filter_cons_True by done. rewrite add_child_get_eq.
    rewrite fmap_cons. by apply stored_snoc.
  - rewrite filter_cons_False by done. by rewrite add_child_get_ne.
Qed.
End loop.

(** ** The state of [result] when the loop starts *)

Lemma add_attributes_get (element : Element attrs) (k : pystr) :
  dict_get (add_attributes element) k
  = if decide (k = str "@attributes" ∧ attrib element ≠ [])
    then Some (attrib_value (attrib element)) else None.
Proof.
  unfold add_attributes. destruct (attrib element) as [|kv a]; simpl.
  - rewrite decide_False; [done|]. intros [_ Hne]. by apply Hne.
  - destruct (decide (str "@attributes" = k)) as [<-|Hne].
    + by rewrite decide_True.
    + rewrite decide_False; [done|]. intros [-> _]. by apply Hne.
Qed.

Lemma add_text_cases (element : Element attrs) (result : dict value) :
  (∃ t, text element = Some t ∧ strip t ≠ [] ∧ children element = []
        ∧ add_text element result = inl (strip t))
  ∨ (∃ t, text element = Some t ∧ strip t ≠ [] ∧ children element ≠ []
          ∧ add_text element result
            = inr (dict_set result (str "text") (VStr (strip t))))
  ∨ ((∀ t, text element = Some t → strip t = [])
     ∧ add_text element result = inr result).
Proof.
  unfold add_text. destruct (text element) as [t|]; [|by right; right].
  destruct (decide (strip t = [])) as [He|Hne].
  - right; right. split; [by intros ? [= <-]|].
    rewrite He. by rewrite andb_false_r.
  - rewrite strip_nonempty_truthy by done.
    destruct (children element) as [|c cs]; simpl.
    + left. by exists t.
    + right; left. by exists t.
Qed.

(** When the loop starts, [result] holds exactly the element's own keys, none
    of them with a list. *)
Lemma loop_start (element : Element attrs) (result : dict value) :
  add_text element (add_attributes element) = inr result →
  (∀ t, text element = Some t → strip t ≠ [] →
     dict_get result (str "text") = Some (VStr (strip t)))
  ∧ (∀ k, ¬ own_key element k → dict_get result k = None)
  ∧ (∀ k cur, dict_get result k = Some cur →
       own_key element k ∧ isinstance_list cur = false).
Proof.
  destruct (add_text_cases element (add_attributes element))
    as [(t & _ & _ & _ & ->)|[(t & Ht & Hne & _ & ->)|[Hblank ->]]];
    [done| |]; intros [= <-].
  - split; [|split].
    + intros t' Ht' _. rewrite Ht in Ht'. injection Ht' as <-.
      apply dict_get_set_eq.
    + intros k Hk. rewrite dict_get_set_ne.
      * rewrite add_attributes_get, decide_False; [done|].
        intros ?. apply Hk. by left.
      * intros <-. apply Hk. right. eauto.
    + intros k cur. destruct (decide (str "text" = k)) as [<-|Hk].
      * rewrite dict_get_set_eq. intros [= <-]. split; [|done].
        right. eauto.
      * rewrite dict_get_set_ne by done. rewrite add_attributes_get.
        case_decide as Ha; [|done]. intros [= <-]. split; [by left|done].
  - split; [|split].
    + intros t Ht Hne. by destruct (Hne (Hblank t Ht)).
    + intros k Hk. rewrite add_attributes_get, decide_False; [done|].
      intros ?. apply Hk. by left.
    + intros k cur. rewrite add_attributes_get.
      case_decide as Ha; [|done]. intros [= <-]. split; [by left|done].
Qed.

(** An element with children is not returned from the text block. *)
Lemma add_text_inr (element : Element attrs) (result : dict value) :
  children element ≠ [] → ∃ result', add_text element result = inr result'.
Proof.
  intros Hcs. destruct (add_text_cases element result)
    as [(t & _ & _ & Hnil & _)|[(t & _ & _ & _ & ->)|[_ ->]]];
    [done|by eexists..].
Qed.

(** What a returned dictionary holds under each key. *)
Lemma xml_to_dict_recursive_get (element : Element attrs) (d : dict value) :
  xml_to_dict_recursive element = VDict d →
  ∃ result,
    add_text element (add_attributes element) = inr result
    ∧ ∀ N, dict_get d N
           = stored (dict_get result N)
                    (xml_to_dict_recursive <$> children_with_tag N element).
Proof.
  rewrite xml_to_dict_recursive_eq.
  destruct (add_text element (add_attributes element)) as [s|result];
    [done|].
  intros [= <-]. exists result. split; [done|].
  intros N. apply fold_add_child_get, xml_to_dict_recursive_not_list.
Qed.

(** An element with children is converted to a dictionary. *)
Lemma xml_to_dict_recursive_children (element : Element attrs) :
  children element ≠ [] → ∃ d, xml_to_dict_recursive element = VDict d.
Proof.
  intros Hcs. rewrite xml_to_dict_recursive_eq.
  destruct (add_text_inr element (add_attributes element) Hcs) as [r ->].
  by eexists.
Qed.

Lemma children_with_tag_nonempty {A} (N : pystr) (element : Element A) :
  children_with_tag N element ≠ [] → children element ≠ [].
Proof. unfold children_with_tag. by destruct (children element). Qed.

(** ** Where lists occur *)

Lemma shaped_not_list (v : value) :
  isinstance_list v = false → shaped true v = shaped false v.
Proof. by destruct v. Qed.

Lemma shaped_weaken (v : value) : shaped false v = true → shaped true v = true.
Proof. by destruct v. Qed.

Lemma attrib_value_shaped (a : attrs) : shaped true (attrib_value a) = true.
Proof. simpl. by induction a. Qed.

Lemma dict_set_shaped (d : dict value) (k : pystr) (v : value) :
  forallb (λ kv, shaped true kv.2) d = true →
  shaped true v = true →
  forallb (λ kv, shaped true kv.2) (dict_set d k v) = true.
Proof.
  intros Hd Hv. induction d as [|[k' v'] d IH]; simpl in *.
  - by rewrite Hv.
  - apply andb_true_iff in Hd as [Hv' Hd].
    destruct (decide (k' = k)); simpl.
    + by rewrite Hv, Hd.
    + by rewrite Hv', IH.
Qed.

Lemma dict_get_shaped (d : dict value) (k : pystr) (v : value) :
  forallb (λ kv, shaped true kv.2) d = true →
  dict_get d k = Some v → shaped true v = true.
Proof.
  induction d as [|[k' v'] d IH]; simpl; [done|].
  intros [Hv' Hd]%andb_true_iff. destruct (decide (k' = k)).
  - by intros [= <-].
  - by apply IH.
Qed.

Lemma add_child_shaped (conv : Element attrs → value)
    (result : dict value) (child : Element attrs) :
  forallb (λ kv, shaped true kv.2) result = true →
  shaped false (conv child) = true →
  forallb (λ kv, shaped true kv.2) (add_child conv result child) = true.
Proof.
  intros Hres Hc. unfold add_child.
  destruct (dict_get result (tag child)) as [cur|] eqn:Hget.
  - apply dict_set_shaped; [done|].
    pose proof (dict_get_shaped _ _ _ Hres Hget) as Hcur.
    simpl. rewrite forallb_app. simpl. rewrite Hc.
    destruct cur as [s|d|l]; simpl in *; by rewrite ?Hcur.
  - apply dict_set_shaped; [done|]. by apply shaped_weaken.
Qed.

Lemma fold_add_child_shaped (conv : Element attrs → value)
    (cs : list (Element attrs)) (result : dict value) :
  Forall (λ c, shaped false (conv c) = true) cs →
  forallb (λ kv, shaped true kv.2) result = true →
  forallb (λ kv, shaped true kv.2) (fold_left (add_child conv) cs result)
  = true.
Proof.
  intros Hcs. revert result.
  induction Hcs as [|c cs Hc _ IH]; intros result Hres; simpl; [done|].
  by apply IH, add_child_shaped.
Qed.

Lemma add_attributes_shaped (element : Element attrs) :
  forallb (λ kv, shaped true kv.2) (add_attributes element) = true.
Proof.
  unfold add_attributes. destruct (dict_truthy (attrib element)); [|done].
  apply dict_set_shaped; [done|]. apply attrib_value_shaped.
Qed.

(** In everything the converter returns, a list is an entry of a dictionary
    and holds no list. *)
Lemma xml_to_dict_recursive_shaped (element : Element attrs) :
  shaped false (xml_to_dict_recursive element) = true.
Proof.
  induction element as [t a x cs IH] using Element_ind_children.
  rewrite xml_to_dict_recursive_eq.
  set (element := Elem t a x cs).
  destruct (add_text_cases element (add_attributes element))
    as [(s & _ & _ & _ & ->)|[(s & _ & _ & _ & ->)|[_ ->]]]; [done| |].
  - apply fold_add_child_shaped; [done|].
    apply dict_set_shaped; [|done]. apply add_attributes_shaped.
  - apply fold_add_child_shaped; [done|]. apply add_attributes_shaped.
Qed.

(** A converted child is found under its tag: as the entry itself or as an
    item of the list that is the entry. *)
Lemma stored_contains (init : option value) (vs : list value) (v : value) :
  v ∈ vs →
  ∃ w, stored init vs = Some w ∧ (w = v ∨ ∃ l, w = VList l ∧ v ∈ l).
Proof.
  intros Hv. destruct vs as [|v1 vs]; [by apply elem_of_nil in Hv|].
  destruct init as [[s|d|l]|]; simpl.
  - eexists. split; [done|]. right. eexists. split; [done|].
    by apply elem_of_cons; right.
  - eexists. split; [done|]. right. eexists. split; [done|].
    by apply elem_of_cons; right.
  - eexists. split; [done|]. right. eexists. split; [done|].
    by apply elem_of_app; right.
  - destruct vs as [|v2 vs].
    + eexists. split; [done|]. left. by apply list_elem_of_singleton in Hv.
    + eexists. split; [done|]. right. by eexists.
Qed.

(** ** Dictionaries by position *)

Lemma dict_set_absent {V} (d : dict V) (k : pystr) (y : V) :
  dict_get d k = None → dict_set d k y = d ++ [(k, y)].
Proof.
  induction d as [|[k' v'] d IH]; simpl; [done|].
  destruct (decide (k' = k)); [done|]. intros Hd. by rewrite IH.
Qed.

(** Two dictionaries with the same keys in the same order hold a key at the
    same position, and an assignment to the key changes that position. *)
Lemma dict_get_position {V W} (d : dict V) (d' : dict W) (k : pystr) :
  dict_keys d = dict_keys d' →
  (dict_get d k = None ∧ dict_get d' k = None)
  ∨ ∃ i x y,
      d !! i = Some (k, x) ∧ d' !! i = Some (k, y)
      ∧ dict_get d k = Some x ∧ dict_get d' k = Some y
      ∧ (∀ z, dict_set d k z = <[i := (k, z)]> d)
      ∧ (∀ z, dict_set d' k z = <[i := (k, z)]> d').
Proof.
  revert d'. induction d as [|[k1 x1] d IH]; intros [|[k2 y2] d'];
    simpl; try done.
  - intros _. by left.
  - intros [= <- Hkeys]. destruct (decide (k1 = k)) as [->|Hne].
    + right. exists 0, x1, y2. by repeat split.
    + destruct (IH d' Hkeys)
        as [[H1 H2]|(i & x & y & H1 & H2 & H3 & H4 & H5 & H6)].
      * by left.
      * right. exists (S i), x, y. repeat split; try done.
        -- intros z. simpl. by rewrite H5.
        -- intros z. simpl. by rewrite H6.
Qed.

(** ** The store: what a reference stands for *)

Lemma denotes_dict F h (d : dict value) (r : Imp.ref) :
  Imp.denotes F h (VDict d) r
  ↔ ∃ l d', r = Imp.RLoc l ∧ F l ∧ h !! l = Some (Imp.ODict d')
            ∧ Forall2 (λ kv kr, kv.1 = kr.1 ∧ Imp.denotes F h kv.2 kr.2) d d'.
Proof.
  simpl. do 2 (apply exist_proper; intros ?).
  do 3 (apply and_iff_compat_l).
  match goal with |- ?G d ?d' ↔ _ => generalize d' end.
  induction d as [|kv d IH]; intros [|kr d'].
  - split; [constructor|done].
  - split; [done|by inversion 1].
  - split; [done|by inversion 1].
  - rewrite Forall2_cons, <- IH. tauto.
Qed.

Lemma denotes_list F h (vs : list value) (r : Imp.ref) :
  Imp.denotes F h (VList vs) r
  ↔ ∃ l rs, r = Imp.RLoc l ∧ F l ∧ h !! l = Some (Imp.OList rs)
            ∧ Forall2 (Imp.denotes F h) vs rs.
Proof.
  simpl. do 2 (apply exist_proper; intros ?).
  do 3 (apply and_iff_compat_l).
  match goal with |- ?G vs ?rs ↔ _ => generalize rs end.
  induction vs as [|v vs IH]; intros [|r' rs].
  - split; [constructor|done].
  - split; [done|by inversion 1].
  - split; [done|by inversion 1].
  - rewrite Forall2_cons, <- IH. tauto.
Qed.

(** What a reference stands for is not changed by changes to objects that
    are not read. *)
Lemma denotes_mono (F G : Imp.loc → Prop) (h h' : Imp.heap) (v : value) :
  (∀ l, F l → l < length h → G l ∧ h' !! l = h !! l) →
  ∀ r, Imp.denotes F h v r → Imp.denotes G h' v r.
Proof.
  intros Hagree.
  induction v as [s|d IH|vs IH] using value_ind_nested; intros r.
  - done.
  - rewrite !denotes_dict. intros (l & d' & -> & HF & Hl & Hd).
    destruct (Hagree l HF) as [HG Hl']; [by eapply lookup_lt_Some|].
    exists l, d'. rewrite Hl'. repeat split; try done.
    clear Hl Hl'. induction Hd as [|kv kr d d' [Hk Hv] _ IHd];
      [constructor|].
    apply Forall_cons in IH as [IHv IH].
    constructor; [|by apply IHd]. split; [done|]. by apply IHv.
  - rewrite !denotes_list. intros (l & rs & -> & HF & Hl & Hvs).
    destruct (Hagree l HF) as [HG Hl']; [by eapply lookup_lt_Some|].
    exists l, rs. rewrite Hl'. repeat split; try done.
    clear Hl Hl'. induction Hvs as [|v r vs rs Hv _ IHvs]; [constructor|].
    apply Forall_cons in IH as [IHv IH].
    constructor; [by apply IHv|by apply IHvs].
Qed.

(** What a reference stands for is determined by the store. *)
Lemma denotes_functional F G h (v1 v2 : value) :
  ∀ r, Imp.denotes F h v1 r → Imp.denotes G h v2 r → v1 = v2.
Proof.
  revert v2.
  induction v1 as [s|d IH|vs IH] using value_ind_nested; intros v2 r.
  - simpl. intros ->. destruct v2 as [s2|d2|vs2]; simpl.
    + by intros [= ->].
    + by intros (? & ? & ? & _).
    + by intros (? & ? & ? & _).
  - rewrite denotes_dict. intros (l & d' & -> & _ & Hl & Hd).
    destruct v2 as [s2|d2|vs2].
    + done.
    + rewrite denotes_dict. intros (l2 & d2' & [= <-] & _ & Hl2 & Hd2).
      rewrite Hl in Hl2. injection Hl2 as <-. f_equal.
      clear Hl. revert d2 Hd2.
      induction Hd as [|kv kr d d' [Hk Hv] _ IHd]; intros d2 Hd2.
      * by inversion Hd2.
      * inversion Hd2 as [|kv2 ? d2t ? [Hk2 Hv2] Hd2t]; subst.
        apply Forall_cons in IH as [IHv IH].
        f_equal; [|by apply IHd].
        destruct kv, kv2; simpl in *. f_equal; [congruence|].
        by eapply IHv.
    + rewrite denotes_list. intros (l2 & rs & [= <-] & _ & Hl2 & _).
      by rewrite Hl in Hl2.
  - rewrite denotes_list. intros (l & rs & -> & _ & Hl & Hvs).
    destruct v2 as [s2|d2|vs2].
    + done.
    + rewrite denotes_dict. intros (l2 & d2' & [= <-] & _ & Hl2 & _).
      by rewrite Hl in Hl2.
    + rewrite denotes_list. intros (l2 & rs2 & [= <-] & _ & Hl2 & Hvs2).
      rewrite Hl in Hl2. injection Hl2 as <-. f_equal.
      clear Hl. revert vs2 Hvs2.
      induction Hvs as [|v r vs rs Hv _ IHvs]; intros vs2 Hvs2.
      * by inversion Hvs2.
      * inversion Hvs2 as [|v2 ? vs2t ? Hv2 Hvs2t]; subst.
        apply Forall_cons in IH as [IHv IH].
        f_equal; [by eapply IHv|by apply IHvs].
Qed.

(** ** Statements, one at a time *)

Lemma bind_inr {A B} (m : Imp.M A) (f : A → Imp.M B) h x h' :
  m h = inr (x, h') → (m ≫= f) h = f x h'.
Proof.
  intros Hm. unfold mbind, Imp.M_bind, Imp.bind. by rewrite Hm.
Qed.

Lemma the_dict_eq h l d :
  h !! l = Some (Imp.ODict d) → Imp.the_dict (Imp.RLoc l) h = inr (d, h).
Proof. intros Hl. unfold Imp.the_dict. by rewrite Hl. Qed.

Lemma truthy_eq h l d :
  h !! l = Some (Imp.ODict d) →
  Imp.truthy (Imp.RLoc l) h = inr (dict_truthy d, h).
Proof.
  intros Hl. unfold Imp.truthy.
  by rewrite (bind_inr _ _ _ _ _ (the_dict_eq _ _ _ Hl)).
Qed.

Lemma contains_eq h l d k :
  h !! l = Some (Imp.ODict d) →
  Imp.contains (Imp.RLoc l) k h = inr (dict_mem d k, h).
Proof.
  intros Hl. unfold Imp.contains.
  by rewrite (bind_inr _ _ _ _ _ (the_dict_eq _ _ _ Hl)).
Qed.

Lemma getitem_eq h l d k x :
  h !! l = Some (Imp.ODict d) → dict_get d k = Some x →
  Imp.getitem (Imp.RLoc l) k h = inr (x, h).
Proof.
  intros Hl Hk. unfold Imp.getitem.
  rewrite (bind_inr _ _ _ _ _ (the_dict_eq _ _ _ Hl)). by rewrite Hk.
Qed.

Lemma setitem_eq h l d k x :
  h !! l = Some (Imp.ODict d) →
  Imp.setitem (Imp.RLoc l) k x h
  = inr (tt, <[l := Imp.ODict (dict_set d k x)]> h).
Proof.
  intros Hl. unfold Imp.setitem.
  by rewrite (bind_inr _ _ _ _ _ (the_dict_eq _ _ _ Hl)).
Qed.

Lemma isinstance_list_dict h l d :
  h !! l = Some (Imp.ODict d) →
  Imp.isinstance_list (Imp.RLoc l) h = inr (false, h).
Proof. intros Hl. unfold Imp.isinstance_list. by rewrite Hl. Qed.

Lemma isinstance_list_list h l rs :
  h !! l = Some (Imp.OList rs) →
  Imp.isinstance_list (Imp.RLoc l) h = inr (true, h).
Proof. intros Hl. unfold Imp.isinstance_list. by rewrite Hl. Qed.

Lemma append_eq h l rs y :
  h !! l = Some (Imp.OList rs) →
  Imp.append (Imp.RLoc l) y h = inr (tt, <[l := Imp.OList (rs ++ [y])]> h).
Proof. intros Hl. unfold Imp.append. by rewrite Hl. Qed.

(** ** Element trees in the store *)

Lemma depth_child {A} (element c : Element A) :
  c ∈ children element → depth c < depth element.
Proof.
  destruct element as [t a x cs]. simpl. intros Hc.
  induction Hc as [c cs|c c' cs _ IH]; simpl; lia.
Qed.

Lemma valid_inv b h (element : Element Imp.loc) :
  Imp.valid b h element = true →
  Imp.attrib_ok b h (attrib element) = true
  ∧ ∀ c, c ∈ children element → Imp.valid b h c = true.
Proof.
  destruct element as [t a x cs]. simpl.
  intros [Ha Hcs]%andb_true_iff. split; [done|].
  intros c Hc. rewrite forallb_forall in Hcs.
  by apply Hcs, list_elem_of_In.
Qed.

Lemma attrib_ok_agree b h h' a :
  (∀ l, l < b → h' !! l = h !! l) →
  Imp.attrib_ok b h' a = Imp.attrib_ok b h a.
Proof.
  intros Hagree. unfold Imp.attrib_ok.
  destruct (a <? b) eqn:Hab; [|done].
  apply Nat.ltb_lt in Hab. by rewrite Hagree.
Qed.

(** Changes above [b] leave a valid element tree as it is. *)
Lemma valid_agree b h h' (element : Element Imp.loc) :
  (∀ l, l < b → h' !! l = h !! l) →
  Imp.valid b h' element = Imp.valid b h element.
Proof.
  intros Hagree.
  induction element as [t a x cs IH] using Element_ind_children. simpl.
  rewrite (attrib_ok_agree b h h' a Hagree). f_equal.
  induction IH as [|c cs Hc _ IHcs]; simpl; [done|]. by rewrite Hc, IHcs.
Qed.

Lemma view_agree b h h' (element : Element Imp.loc) :
  (∀ l, l < b → h' !! l = h !! l) →
  Imp.valid b h element = true →
  Imp.view h' element = Imp.view h element.
Proof.
  intros Hagree.
  induction element as [t a x cs IH] using Element_ind_children. simpl.
  intros [Ha Hcs]%andb_true_iff. f_equal.
  - unfold Imp.attrib_ok in Ha. apply andb_true_iff in Ha as [Hab _].
    apply Nat.ltb_lt in Hab. unfold Imp.attrs_at. by rewrite Hagree.
  - induction IH as [|c cs Hc _ IHcs]; simpl in *; [done|].
    apply andb_true_iff in Hcs as [Hvc Hcs]. by rewrite Hc, IHcs.
Qed.

Lemma view_children h (element : Element Imp.loc) :
  children (Imp.view h element) = map (Imp.view h) (children element).
Proof. by destruct element. Qed.

Lemma view_tag h (element : Element Imp.loc) :
  tag (Imp.view h element) = tag element.
Proof. by destruct element. Qed.

Lemma view_text h (element : Element Imp.loc) :
  text (Imp.view h element) = text element.
Proof. by destruct element. Qed.

Lemma view_attrib h (element : Element Imp.loc) :
  attrib (Imp.view h element) = Imp.attrs_at h (attrib element).
Proof. by destruct element. Qed.

(** The [attrib] dictionary of a valid element stands for its contents. *)
Lemma attrib_denotes (F : Imp.loc → Prop) b h a :
  Imp.attrib_ok b h a = true → (∀ l, l < b → F l) →
  ∃ d, h !! a = Some (Imp.ODict d)
       ∧ a < b
       ∧ dict_truthy d = dict_truthy (Imp.attrs_at h a)
       ∧ Imp.denotes F h (attrib_value (Imp.attrs_at h a)) (Imp.RLoc a).
Proof.
  unfold Imp.attrib_ok, Imp.attrs_at.
  intros [Hab Hd]%andb_true_iff HF. apply Nat.ltb_lt in Hab.
  destruct (h !! a) as [[d|rs]|] eqn:Ha; try done.
  exists d. repeat split; try done.
  - destruct d as [|[k [s|l]] d]; simpl in *; done.
  - unfold attrib_value. apply denotes_dict. exists a, d.
    repeat split; try done; [by apply HF|].
    clear Ha. induction d as [|[k [s|l]] d IH]; simpl in *;
      [constructor| |done].
    constructor; [done|]. by apply IH.
Qed.

(** ** The loop *)

Lemma Forall2_insert_impl {A B} (P Q : A → B → Prop) (l : list A)
    (k : list B) (i : nat) (x : A) (y : B) :
  Forall2 P l k →
  (∀ j a b', j ≠ i → l !! j = Some a → k !! j = Some b' → P a b' → Q a b') →
  Q x y →
  Forall2 Q (<[i := x]> l) (<[i := y]> k).
Proof.
  intros HP Himpl HQ.
  apply Forall2_same_length_lookup in HP as [Hlen HP].
  apply Forall2_same_length_lookup. split; [by rewrite !length_insert|].
  intros j a b' Ha Hb.
  apply list_lookup_insert_Some in Ha as [(<- & <- & _)|[Hne Ha]];
    apply list_lookup_insert_Some in Hb as [(Hij & <- & _)|[Hne' Hb]];
    try done.
  by eapply Himpl; eauto.
Qed.

Lemma denotes_loc_bound F h v l :
  Imp.denotes F h v (Imp.RLoc l) → l < length h ∧ F l.
Proof.
  destruct v as [s|d|vs].
  - done.
  - rewrite denotes_dict. intros (? & ? & [= <-] & ? & Hl & _).
    split; [by eapply lookup_lt_Some|done].
  - rewrite denotes_list. intros (? & ? & [= <-] & ? & Hl & _).
    split; [by eapply lookup_lt_Some|done].
Qed.

Lemma entry_rel_keys b lr own h (d : dict value) (d' : dict Imp.ref) :
  Forall2 (entry_rel b lr own h) d d' → dict_keys d = dict_keys d'.
Proof.
  unfold dict_keys. induction 1 as [|kv kr d d' [Hk _] _ IH]; simpl; [done|].
  by rewrite Hk, IH.
Qed.

Lemma entry_rel_bound b lr own h kv kr l :
  (∀ l, l ∈ own → lr < l < length h) →
  entry_rel b lr own h kv kr → kr.2 = Imp.RLoc l → l < length h.
Proof.
  intros Hown [_ [[_ Hd]|(ll & vs & rs & _ & Hr & Hll & _)]] Hl.
  - rewrite Hl in Hd. by apply denotes_loc_bound in Hd as [? _].
  - rewrite Hl in Hr. injection Hr as ->. by apply Hown.
Qed.

(** An entry that is not a list is not among the call's own lists. *)
Lemma entry_rel_frozen_loc b lr own h kv kr l :
  b ≤ lr → (∀ l, l ∈ own → lr < l < length h) →
  entry_rel b lr own h kv kr → isinstance_list kv.2 = false →
  kr.2 = Imp.RLoc l → l ∉ own.
Proof.
  intros Hb Hown [_ [[_ Hd]|(ll & vs & rs & Hv & _)]] Hnl Hl.
  - rewrite Hl in Hd. apply denotes_loc_bound in Hd as [_ [Hlb|[_ ?]]];
      [|done].
    intros Hin. apply Hown in Hin. lia.
  - by rewrite Hv in Hnl.
Qed.

Lemma entry_rel_mono b lr own own' h h' kv kr :
  (∀ l, frozen b lr own l → l < length h →
        frozen b lr own' l ∧ h' !! l = h !! l) →
  (∀ ll, kr.2 = Imp.RLoc ll → ll ∈ own → ll ∈ own' ∧ h' !! ll = h !! ll) →
  entry_rel b lr own h kv kr → entry_rel b lr own' h' kv kr.
Proof.
  intros Hfrozen Hown [Hk [[Hnl Hd]|(ll & vs & rs & Hv & Hr & Hll & Hl & Hvs)]].
  - split; [done|]. left. split; [done|]. by eapply denotes_mono.
  - split; [done|]. right. exists ll, vs, rs.
    destruct (Hown ll Hr Hll) as [Hll' Hl'].
    repeat split; try done; [by rewrite Hl'|].
    eapply Forall2_impl; [done|]. intros v r. by apply denotes_mono.
Qed.

Lemma isinstance_list_denotes F h (v : value) (r : Imp.ref) :
  Imp.denotes F h v r →
  Imp.isinstance_list r h = inr (isinstance_list v, h).
Proof.
  destruct v as [s|d|vs].
  - by intros ->.
  - rewrite denotes_dict. intros (l & d' & -> & _ & Hl & _).
    by eapply isinstance_list_dict.
  - rewrite denotes_list. intros (l & rs & -> & _ & Hl & _).
    by eapply isinstance_list_list.
Qed.

(** From the store [h] in which a pass of the loop starts, through the
    store [h ++ hn] in which the call for the child returns, to the store
    [h'] in which the pass ends: [h'] differs from [h ++ hn] at most in
    [result] and in the call's own lists. *)
Lemma step_transfer b lr own own' (h hn h' : Imp.heap) :
  b ≤ lr → lr < length h →
  (∀ l, l ∈ own → lr < l < length h) →
  (∀ l, l ∈ own' → lr < l ∧ (l ∈ own ∨ length (h ++ hn) ≤ l)) →
  (∀ l, l ∈ own → l ∈ own') →
  (∀ l, l < length (h ++ hn) → l ≠ lr → l ∉ own' →
        h' !! l = (h ++ hn) !! l) →
  (∀ v r, Imp.denotes (within b (length h) (length (h ++ hn))) (h ++ hn) v r →
          Imp.denotes (frozen b lr own') h' v r)
  ∧ (∀ kv kr, entry_rel b lr own h kv kr →
              (∀ ll, kr.2 = Imp.RLoc ll → ll ∈ own → h' !! ll = h !! ll) →
              entry_rel b lr own' h' kv kr)
  ∧ (∀ v r, Imp.denotes (frozen b lr own) h v r →
            Imp.denotes (frozen b lr own') h' v r)
  ∧ (∀ l, l < lr → h' !! l = h !! l).
Proof.
  intros Hb Hlr Hown Hown' Hsub Hagree.
  assert (length h ≤ length (h ++ hn)) as Hlen
    by (rewrite length_app; lia).
  assert (∀ l, l < b → l ∉ own') as Hlow.
  { intros l Hl Hin. apply Hown' in Hin as [? _]. lia. }
  assert (∀ l, frozen b lr own l → l < length h →
               frozen b lr own' l ∧ h' !! l = h !! l) as Hfz.
  { intros l Hfr Hl.
    assert (l ≠ lr ∧ l ∉ own') as [Hne Hnot].
    { destruct Hfr as [?|[? Hnot]]; [split; [lia|by apply Hlow]|].
      split; [lia|]. intros Hin.
      apply Hown' in Hin as [_ [Hin|?]]; [done|lia]. }
    split.
    - destruct Hfr as [?|[? _]]; [by left|by right].
    - rewrite Hagree by (done || lia). by apply lookup_app_l. }
  split; [|split; [|split]].
  - intros v r. apply denotes_mono. intros l [Hl|[Hl1 Hl2]] _.
    + split; [by left|]. apply Hagree; [lia|lia|by apply Hlow].
    + assert (l ∉ own') as Hnot.
      { intros Hin. apply Hown' in Hin as [_ [Hin|?]]; [|lia].
        apply Hown in Hin. lia. }
      split; [right; split; [lia|done]|]. apply Hagree; [lia|lia|done].
  - intros kv kr Hrel Hlists. eapply entry_rel_mono; [done| |exact Hrel].
    intros ll Hll Hin. split; [by apply Hsub|by apply Hlists].
  - intros v r. by apply denotes_mono.
  - intros l Hl. rewrite Hagree; [by apply lookup_app_l; lia|lia|lia|].
    intros Hin. apply Hown' in Hin as [? _]. lia.
Qed.

(** One pass of the loop keeps the invariant and follows the functional
    loop. *)
Lemma add_child_step b lr h0 conv (c : Element Imp.loc) h (d : dict value) :
  b ≤ lr →
  call_ok b conv c →
  Imp.valid b h0 c = true →
  loop_inv b lr h0 h d →
  ∃ h', Imp.add_child conv (Imp.RLoc lr) c h = inr (tt, h')
        ∧ length h ≤ length h'
        ∧ loop_inv b lr h0 h'
                   (add_child xml_to_dict_recursive d (Imp.view h0 c)).
Proof.
  intros Hb Hcall Hvalid (d' & own & Hlr & Hent & Hown & Hdist & Hold).
  assert (lr < length h) as Hlrlt by (by eapply lookup_lt_Some).
  assert (∀ l, l < b → h !! l = h0 !! l) as Hbelow
    by (intros l Hl; apply Hold; lia).
  destruct (Hcall h) as (rc & hn & Hconv & Hden & Hshape); [lia| |].
  { by rewrite (valid_agree b h0 h). }
  rewrite (view_agree b h0 h) in Hden by done.
  pose proof (xml_to_dict_recursive_not_list (Imp.view h0 c)) as Hvc.
  set (vc := xml_to_dict_recursive (Imp.view h0 c)) in *.
  assert (length (h ++ hn) = length h + length hn) as Hlen1
    by apply length_app.
  assert (∀ l, l < length h → (h ++ hn) !! l = h !! l) as Hext
    by (intros l Hl; by apply lookup_app_l).
  assert ((h ++ hn) !! lr = Some (Imp.ODict d')) as Hlr1 by (by rewrite Hext).
  assert (∀ l, rc = Imp.RLoc l → length h ≤ l) as Hrc.
  { intros l ->. by destruct Hshape. }
  unfold Imp.add_child, add_child. rewrite view_tag.
  rewrite (bind_inr _ _ _ _ _ Hconv).
  rewrite (bind_inr _ _ _ _ _ (contains_eq _ _ _ (tag c) Hlr1)).
  unfold dict_mem.
  destruct (dict_get_position d d' (tag c) (entry_rel_keys _ _ _ _ _ _ Hent))
    as [[Hn Hn']|(i & x & y & Hi & Hi' & Hg & Hg' & Hs & Hs')].
  - (* a new key *)
    rewrite Hn, Hn'. rewrite (setitem_eq _ _ _ _ _ Hlr1).
    eexists. split; [done|].
    set (h2 := <[lr := Imp.ODict (dict_set d' (tag c) rc)]> (h ++ hn)).
    assert (length h2 = length (h ++ hn)) as Hlen2 by apply length_insert.
    split; [lia|].
    destruct (step_transfer b lr own own h hn h2)
      as (Hchild & Hentry & _ & Hold'); try done.
    { intros l Hl. split; [by apply Hown|by left]. }
    { intros l _ Hne _. by apply list_lookup_insert_ne. }
    assert (∀ ll, ll ∈ own → h2 !! ll = h !! ll) as Hlists.
    { intros ll Hll. apply Hown in Hll. unfold h2.
      rewrite list_lookup_insert_ne by lia. apply Hext. lia. }
    exists (dict_set d' (tag c) rc), own. split; [|split; [|split; [|split]]].
    + apply list_lookup_insert_eq. lia.
    + rewrite !dict_set_absent by done. apply Forall2_app.
      * eapply Forall2_impl; [exact Hent|]. intros kv kr Hrel.
        apply Hentry; [done|]. intros ll _. apply Hlists.
      * constructor; [|constructor]. split; [done|]. left.
        split; [done|]. by apply Hchild.
    + intros l Hl. apply Hown in Hl. lia.
    + rewrite dict_set_absent by done. intros j1 j2 k1 k2 l Hl H1 H2.
      assert (rc ≠ Imp.RLoc l) as Hne.
      { intros ->. apply Hown in Hl. specialize (Hrc l eq_refl). lia. }
      apply lookup_app_Some in H1 as [H1|[_ H1]];
        apply lookup_app_Some in H2 as [H2|[_ H2]].
      * by eapply Hdist.
      * apply list_lookup_singleton_Some in H2 as [_ [= _ ?]]. done.
      * apply list_lookup_singleton_Some in H1 as [_ [= _ ?]]. done.
      * apply list_lookup_singleton_Some in H1 as [_ [= _ ?]]. done.
    + intros l Hl. rewrite Hold' by done. by apply Hold.
  - (* the key is present *)
    rewrite Hg, Hg'.
    rewrite (bind_inr _ _ _ _ _ (getitem_eq _ _ _ _ _ Hlr1 Hg')).
    pose proof (Forall2_lookup_lr _ _ _ _ _ _ Hent Hi Hi') as Hrel.
    destruct Hrel as [_ [[Hnl Hxy]|(ll & vs & rs & Hx & Hy & Hll & Hhll & Hvs)]];
      simpl in *.
    + (* the entry is not a list: a list is made for it *)
      assert (Imp.isinstance_list y (h ++ hn) = inr (false, h ++ hn)) as His.
      { rewrite <- Hnl. eapply (isinstance_list_denotes (λ _, True)).
        eapply denotes_mono; [|exact Hxy]. intros l _ Hl. split; [done|].
        by apply Hext. }
      rewrite (bind_inr _ _ _ _ _ His). simpl negb. cbv iota.
      set (nl := length (h ++ hn)).
      set (h2 := (h ++ hn) ++ [Imp.OList [y]]).
      set (h3 := <[lr := Imp.ODict (dict_set d' (tag c) (Imp.RLoc nl))]> h2).
      set (h4 := <[nl := Imp.OList ([y] ++ [rc])]> h3).
      assert (h2 !! lr = Some (Imp.ODict d')) as Hlr2.
      { unfold h2. rewrite lookup_app_l by lia. done. }
      assert (length h2 = S nl) as Hlen2.
      { unfold h2. rewrite length_app. simpl. lia. }
      assert (length h3 = S nl) as Hlen3.
      { unfold h3. by rewrite length_insert. }
      assert (h3 !! lr
              = Some (Imp.ODict (dict_set d' (tag c) (Imp.RLoc nl)))) as Hlr3.
      { unfold h3. apply list_lookup_insert_eq. lia. }
      assert (h3 !! nl = Some (Imp.OList [y])) as Hnl3.
      { unfold h3. rewrite list_lookup_insert_ne by lia.
        unfold h2, nl. by apply list_lookup_middle. }
      assert ((Imp.getitem (Imp.RLoc lr) (tag c)
                 ≫= λ cur, Imp.new_list [cur]
                 ≫= λ l, Imp.setitem (Imp.RLoc lr) (tag c) (Imp.RLoc l))
                (h ++ hn) = inr (tt, h3)) as Hpromote.
      { rewrite (bind_inr _ _ _ _ _ (getitem_eq _ _ _ _ _ Hlr1 Hg')).
        rewrite (bind_inr _ _ (h ++ hn) nl h2 eq_refl).
        by rewrite (setitem_eq _ _ _ _ _ Hlr2). }
      rewrite (bind_inr _ _ _ _ _ Hpromote).
      rewrite (bind_inr _ _ _ _ _
                 (getitem_eq _ _ _ _ _ Hlr3 (dict_get_set_eq _ _ _))).
      rewrite (append_eq _ _ _ _ Hnl3). fold h4.
      exists h4. split; [done|].
      assert (length h4 = S nl) as Hlen4.
      { unfold h4. by rewrite length_insert. }
      split; [lia|].
      destruct (step_transfer b lr own (nl :: own) h hn h4)
        as (Hchild & Hentry & Hfrozen & Hold'); try done.
      { intros l [->|Hl]%elem_of_cons; [split; [lia|right; lia]|].
        split; [by apply Hown|by left]. }
      { intros l Hl. by apply elem_of_cons; right. }
      { intros l Hl Hne [Hnl' _]%not_elem_of_cons. unfold h4, h3, h2.
        rewrite !list_lookup_insert_ne by done. by apply lookup_app_l. }
      assert (∀ ll, ll ∈ own → h4 !! ll = h !! ll) as Hlists.
      { intros ll Hll. apply Hown in Hll. unfold h4, h3, h2.
        rewrite !list_lookup_insert_ne by lia.
        rewrite lookup_app_l by lia. apply Hext. lia. }
      assert (∀ j kj l, d' !! j = Some (kj, Imp.RLoc l) → l < length h)
        as Hbound.
      { intros j kj l Hj.
        destruct (Forall2_lookup_r _ _ _ _ _ Hent Hj) as (kv & _ & Hrel).
        by eapply entry_rel_bound. }
      exists (dict_set d' (tag c) (Imp.RLoc nl)), (nl :: own).
      split; [|split; [|split; [|split]]].
      * unfold h4. rewrite list_lookup_insert_ne by lia. done.
      * rewrite Hs, Hs'. eapply Forall2_insert_impl; [exact Hent| |].
        -- intros j kv kr _ _ _ Hrel. apply Hentry; [done|].
           intros ll _. apply Hlists.
        -- split; [done|]. right. exists nl, [x; vc], [y; rc].
           repeat split; simpl.
           ++ by destruct x.
           ++ by apply elem_of_cons; left.
           ++ unfold h4. apply list_lookup_insert_eq. lia.
           ++ constructor; [by apply Hfrozen|].
              constructor; [by apply Hchild|constructor].
      * intros l [->|Hl]%elem_of_cons; [lia|]. apply Hown in Hl. lia.
      * rewrite Hs'. intros j1 j2 k1 k2 l Hl H1 H2.
        apply list_lookup_insert_Some in H1 as [(<- & [= _ Hl1] & _)|[Hn1 H1]];
          apply list_lookup_insert_Some in H2
            as [(Hj2 & [= _ Hl2] & _)|[Hn2 H2]]; try done.
        -- subst l. apply Hbound in H2. lia.
        -- subst l. apply Hbound in H1. lia.
        -- apply elem_of_cons in Hl as [->|Hl];
             [apply Hbound in H1; lia|by eapply Hdist].
      * intros l Hl. rewrite Hold' by done. by apply Hold.
    + (* the entry is one of the call's lists: the value is appended *)
      subst x y.
      assert (lr < ll < length h) as Hllb by (by apply Hown).
      assert ((h ++ hn) !! ll = Some (Imp.OList rs)) as Hll1.
      { rewrite Hext by lia. done. }
      rewrite (bind_inr _ _ _ _ _ (isinstance_list_list _ _ _ Hll1)).
      simpl negb. cbv iota.
      rewrite (bind_inr _ _ (h ++ hn) tt (h ++ hn) eq_refl).
      rewrite (bind_inr _ _ _ _ _ (getitem_eq _ _ _ _ _ Hlr1 Hg')).
      rewrite (append_eq _ _ _ _ Hll1).
      set (h2 := <[ll := Imp.OList (rs ++ [rc])]> (h ++ hn)).
      assert (length h2 = length (h ++ hn)) as Hlen2 by apply length_insert.
      exists h2. split; [done|]. split; [lia|].
      destruct (step_transfer b lr own own h hn h2)
        as (Hchild & Hentry & Hfrozen & Hold'); try done.
      { intros l Hl. split; [by apply Hown|by left]. }
      { intros l _ _ Hnot. unfold h2. apply list_lookup_insert_ne.
        by intros <-. }
      exists d', own. split; [|split; [|split; [|split]]].
      * unfold h2. rewrite list_lookup_insert_ne by lia. done.
      * rewrite Hs.
        rewrite <- (list_insert_id d' i (tag c, Imp.RLoc ll) Hi').
        eapply Forall2_insert_impl; [exact Hent| |].
        -- intros j kv [kj r] Hne _ Hj Hrel. apply Hentry; [done|].
           simpl. intros ll' -> Hll'. unfold h2.
           rewrite list_lookup_insert_ne; [apply Hext; apply Hown in Hll'; lia|].
           intros <-. apply Hne. by eapply Hdist.
        -- split; [done|]. right. exists ll, (vs ++ [vc]), (rs ++ [rc]).
           repeat split; try done.
           ++ unfold h2. apply list_lookup_insert_eq. lia.
           ++ apply Forall2_app.
              ** eapply Forall2_impl; [exact Hvs|]. intros v r.
                 apply Hfrozen.
              ** constructor; [by apply Hchild|constructor].
      * intros l Hl. apply Hown in Hl. lia.
      * done.
      * intros l Hl. rewrite Hold' by done. by apply Hold.
Qed.

Lemma Forall2_dict_set {V W} (P : pystr * V → pystr * W → Prop)
    (d : dict V) (d' : dict W) (k : pystr) (v : V) (r : W) :
  (∀ kv kr, P kv kr → kv.1 = kr.1) →
  Forall2 P d d' → P (k, v) (k, r) →
  Forall2 P (dict_set d k v) (dict_set d' k r).
Proof.
  intros Hkeys Hd Hnew.
  induction Hd as [|[k1 v1] [k2 r2] d d' Hhd Hd IH]; simpl.
  - by constructor.
  - pose proof (Hkeys _ _ Hhd) as Hk. simpl in Hk. subst k2.
    destruct (decide (k1 = k)); by constructor.
Qed.

Lemma for_each_spec b lr h0 conv (cs : list (Element Imp.loc)) :
  b ≤ lr →
  Forall (λ c, call_ok b conv c ∧ Imp.valid b h0 c = true) cs →
  ∀ h d, loop_inv b lr h0 h d →
    ∃ h', Imp.for_each cs (Imp.add_child conv (Imp.RLoc lr)) h = inr (tt, h')
          ∧ length h ≤ length h'
          ∧ loop_inv b lr h0 h'
              (fold_left (add_child xml_to_dict_recursive)
                         (map (Imp.view h0) cs) d).
Proof.
  intros Hb Hcs.
  induction Hcs as [|c cs [Hcall Hvalid] _ IH]; intros h d Hinv; simpl.
  - exists h. by repeat split.
  - destruct (add_child_step b lr h0 conv c h d Hb Hcall Hvalid Hinv)
      as (h1 & Hstep & Hlen1 & Hinv1).
    destruct (IH h1 _ Hinv1) as (h2 & Hrest & Hlen2 & Hinv2).
    exists h2. rewrite (bind_inr _ _ _ _ _ Hstep). repeat split; try done.
    lia.
Qed.

(** ** The statements before the loop *)

Lemma prologue_spec b h (element : Element Imp.loc) :
  b ≤ length h →
  Imp.attrib_ok b h (attrib element) = true →
  ∃ early d',
    (Imp.add_attributes element (Imp.RLoc (length h))
       ≫= λ _, Imp.add_text element (Imp.RLoc (length h)))
      (h ++ [Imp.ODict []])
    = inr (early, h ++ [Imp.ODict d'])
    ∧ match early with
      | Some s =>
          add_text (Imp.view h element) (add_attributes (Imp.view h element))
          = inl s
      | None =>
          ∃ result,
            add_text (Imp.view h element)
                     (add_attributes (Imp.view h element))
            = inr result
            ∧ Forall2 (entry_rel b (length h) [] (h ++ [Imp.ODict d']))
                      result d'
      end.
Proof.
  intros Hb Hok.
  assert (∀ o k x,
            Imp.setitem (Imp.RLoc (length h)) k x (h ++ [Imp.ODict o])
            = inr (tt, h ++ [Imp.ODict (dict_set o k x)])) as Hset.
  { intros o k x. erewrite setitem_eq by (by apply list_lookup_middle).
    rewrite insert_app_r_alt by lia. by rewrite Nat.sub_diag. }
  assert (∃ d0,
            Imp.add_attributes element (Imp.RLoc (length h))
                               (h ++ [Imp.ODict []])
            = inr (tt, h ++ [Imp.ODict d0])
            ∧ ∀ o, Forall2 (entry_rel b (length h) [] (h ++ [o]))
                           (add_attributes (Imp.view h element)) d0)
    as (d0 & Hattr & Hrel0).
  { destruct (attrib_denotes (frozen b (length h) []) b h (attrib element))
      as (da & Ha & Hab & Htruthy & Hden); [done|by left|].
    unfold Imp.add_attributes, add_attributes.
    assert ((h ++ [Imp.ODict []]) !! attrib element = Some (Imp.ODict da))
      as Ha1 by (by rewrite lookup_app_l by lia).
    rewrite (bind_inr _ _ _ _ _ (truthy_eq _ _ _ Ha1)).
    rewrite view_attrib, <- Htruthy.
    destruct (dict_truthy da).
    - eexists. split; [apply Hset|]. intros o. simpl.
      constructor; [|constructor]. split; [done|]. left. split; [done|].
      eapply denotes_mono; [|exact Hden]. intros l Hl Hlt.
      split; [done|]. by apply lookup_app_l.
    - exists []. split; [done|]. constructor. }
  rewrite (bind_inr _ _ _ _ _ Hattr).
  unfold Imp.add_text, add_text.
  rewrite view_text, view_children, length_map.
  destruct (text element) as [t|]; [|exists None, d0; split; [done|eauto]].
  destruct (str_truthy t && str_truthy (strip t));
    [|exists None, d0; split; [done|eauto]].
  destruct (length (children element) =? 0).
  - exists (Some (strip t)), d0. by split.
  - exists None, (dict_set d0 (str "text") (Imp.RStr (strip t))).
    rewrite (bind_inr _ _ _ _ _ (Hset _ _ _)). split; [done|].
    eexists. split; [done|].
    apply Forall2_dict_set; [by intros ?? [? _]|done|].
    split; [done|]. by left.
Qed.

(** ** A call *)

Lemma heap_extension (h h' : Imp.heap) :
  (∀ l, l < length h → h' !! l = h !! l) → length h ≤ length h' →
  ∃ hn, h' = h ++ hn.
Proof.
  intros Hagree Hlen. exists (drop (length h) h').
  rewrite <- (take_drop (length h) h') at 1. f_equal.
  apply list_eq. intros i. destruct (decide (i < length h)) as [Hi|Hi].
  - rewrite lookup_take_lt by done. by apply Hagree.
  - rewrite lookup_take_ge by lia. symmetry. apply lookup_ge_None. lia.
Qed.

Lemma xml_to_dict_recursive_unfold limit (element : Element Imp.loc) :
  Imp.xml_to_dict_recursive (S limit) element
  = (Imp.new_dict ≫= λ l,
     Imp.add_attributes element (Imp.RLoc l) ≫= λ _,
     Imp.add_text element (Imp.RLoc l) ≫= λ early : option pystr,
     match early with
     | Some s => Imp.ret (Imp.RStr s)
     | None =>
         Imp.for_each (children element)
                      (Imp.add_child (Imp.xml_to_dict_recursive limit)
                                     (Imp.RLoc l))
           ≫= λ _, Imp.ret (Imp.RLoc l)
     end).
Proof. reflexivity. Qed.

(** The imperative converter against the functional one: with a limit that
    is at least the depth of the element tree, a call returns, and what it
    returns stands for the functional conversion of the tree. *)
Lemma run_spec b limit (element : Element Imp.loc) :
  depth element ≤ limit →
  call_ok b (Imp.xml_to_dict_recursive limit) element.
Proof.
  revert element. induction limit as [|limit IH]; intros element Hdepth.
  { destruct element. simpl in Hdepth. lia. }
  intros h Hb Hvalid. destruct (valid_inv b h element Hvalid) as [Hattr Hcs].
  rewrite xml_to_dict_recursive_unfold.
  rewrite (bind_inr _ _ h (length h) (h ++ [Imp.ODict []]) eq_refl).
  destruct (prologue_spec b h element Hb Hattr) as (early & d' & Hpro & Hpure).
  assert (∀ B (k : option pystr → Imp.M B),
            (Imp.add_attributes element (Imp.RLoc (length h)) ≫= λ _,
             Imp.add_text element (Imp.RLoc (length h)) ≫= k)
              (h ++ [Imp.ODict []])
            = k early (h ++ [Imp.ODict d'])) as Hpro'.
  { intros B k. revert Hpro. unfold mbind, Imp.M_bind, Imp.bind.
    destruct (Imp.add_attributes _ _ _) as [?|[[] h2]]; [done|].
    by intros ->. }
  rewrite Hpro'. rewrite xml_to_dict_recursive_eq.
  destruct early as [s|].
  - rewrite Hpure. exists (Imp.RStr s), [Imp.ODict d']. by repeat split.
  - destruct Hpure as (result & -> & Hrel).
    set (lr := length h) in *. set (h1 := h ++ [Imp.ODict d']) in *.
    assert (loop_inv b lr h h1 result) as Hinv.
    { exists d', []. split; [by apply list_lookup_middle|]. split; [done|].
      split; [by intros l ?%elem_of_nil|].
      split; [by intros ????? ?%elem_of_nil|].
      intros l Hl. by apply lookup_app_l. }
    destruct (for_each_spec b lr h (Imp.xml_to_dict_recursive limit)
                (children element)) with (h := h1) (d := result)
      as (h' & Hloop & Hlen & d'' & own & Hlr & Hent & Hown & _ & Hold);
      [done| |done|].
    { apply Forall_forall. intros c Hc. split; [|by apply Hcs].
      apply IH. apply depth_child in Hc. lia. }
    rewrite (bind_inr _ _ _ _ _ Hloop).
    assert (length h < length h1) as Hlen1.
    { unfold h1. rewrite length_app. simpl. lia. }
    destruct (heap_extension h h') as [hn ->]; [done|lia|].
    exists (Imp.RLoc lr), hn. split; [done|].
    rewrite view_children. split; [|split; [done|by eexists]].
    assert (∀ v r, Imp.denotes (frozen b lr own) (h ++ hn) v r →
                   Imp.denotes (within b lr (length (h ++ hn))) (h ++ hn) v r)
      as Hfw.
    { intros v r. apply denotes_mono. intros l [Hl|[Hl _]] Hlt.
      - split; [by left|done].
      - split; [right; lia|done]. }
    apply denotes_dict. exists lr, d''. split; [done|].
    split; [right; lia|]. split; [done|].
    eapply Forall2_impl; [exact Hent|].
    intros kv kr [Hk [[_ Hd]|(ll & vs & rs & Hv & Hr & Hll & Hhll & Hvs)]].
    + split; [done|]. by apply Hfw.
    + split; [done|]. rewrite Hv, Hr. apply denotes_list.
      exists ll, rs. split; [done|].
      split; [right; apply Hown in Hll; lia|]. split; [done|].
      eapply Forall2_impl; [exact Hvs|]. apply Hfw.
Qed.

(** ** Element trees put into the store *)

Lemma valid_mono b b' h hn (element : Element Imp.loc) :
  b ≤ b' → Imp.valid b h element = true →
  Imp.valid b' (h ++ hn) element = true.
Proof.
  intros Hb.
  induction element as [t a x cs IH] using Element_ind_children. simpl.
  intros [Ha Hcs]%andb_true_iff. apply andb_true_iff. split.
  - unfold Imp.attrib_ok in *. apply andb_true_iff in Ha as [Hab Hd].
    apply Nat.ltb_lt in Hab. apply andb_true_iff. split.
    + apply Nat.ltb_lt. lia.
    + destruct (h !! a) as [o|] eqn:Hl; [|done].
      by rewrite (lookup_app_l_Some _ _ _ _ Hl).
  - induction IH as [|c cs Hc _ IHcs]; simpl in *; [done|].
    apply andb_true_iff in Hcs as [Hvc Hcs].
    apply andb_true_iff. split; [by apply Hc|by apply IHcs].
Qed.

Lemma view_extend b h hn (element : Element Imp.loc) :
  Imp.valid b h element = true →
  Imp.view (h ++ hn) element = Imp.view h element.
Proof.
  induction element as [t a x cs IH] using Element_ind_children. simpl.
  intros [Ha Hcs]%andb_true_iff. f_equal.
  - unfold Imp.attrib_ok in Ha. apply andb_true_iff in Ha as [_ Hd].
    unfold Imp.attrs_at. destruct (h !! a) as [o|] eqn:Hl; [|done].
    by rewrite (lookup_app_l_Some _ _ _ _ Hl).
  - induction IH as [|c cs Hc _ IHcs]; simpl in *; [done|].
    apply andb_true_iff in Hcs as [Hvc Hcs]. by rewrite Hc, IHcs.
Qed.

Lemma attrs_at_stored h (a : attrs) hn :
  Imp.attrs_at ((h ++ [Imp.ODict (map (λ kv, (kv.1, Imp.RStr kv.2)) a)]) ++ hn)
               (length h)
  = a
  ∧ Imp.attrib_ok
      (length ((h ++ [Imp.ODict (map (λ kv, (kv.1, Imp.RStr kv.2)) a)]) ++ hn))
      ((h ++ [Imp.ODict (map (λ kv, (kv.1, Imp.RStr kv.2)) a)]) ++ hn)
      (length h)
    = true.
Proof.
  unfold Imp.attrs_at, Imp.attrib_ok.
  rewrite <- app_assoc. simpl. rewrite list_lookup_middle by done. split.
  - induction a as [|[k s] a IH]; simpl; [done|]. by rewrite IH.
  - apply andb_true_iff. split.
    + apply Nat.ltb_lt. rewrite length_app. simpl. lia.
    + by induction a.
Qed.

(** Every element tree can be put into any store; the tree in the store is
    valid and reads back as the tree that was put there. *)
Lemma store_tree_spec (element : Element attrs) (h : Imp.heap) :
  ∃ stored hn,
    Imp.store_tree element h = (stored, h ++ hn)
    ∧ Imp.valid (length (h ++ hn)) (h ++ hn) stored = true
    ∧ Imp.view (h ++ hn) stored = element
    ∧ depth stored = depth element.
Proof.
  revert h.
  induction element as [t a x cs IH] using Element_ind_children.
  intros h. simpl.
  set (h1 := h ++ [Imp.ODict (map (λ kv, (kv.1, Imp.RStr kv.2)) a)]).
  assert (∃ cs' hn,
            Imp.store_list Imp.store_tree cs h1 = (cs', h1 ++ hn)
            ∧ forallb (Imp.valid (length (h1 ++ hn)) (h1 ++ hn)) cs' = true
            ∧ map (Imp.view (h1 ++ hn)) cs' = cs
            ∧ map depth cs' = map depth cs) as (cs' & hn & -> & Hv & Hw & Hd).
  { generalize h1. clear h1.
    induction IH as [|c cs Hc _ IHcs]; intros h1; simpl.
    - exists [], []. by rewrite app_nil_r.
    - destruct (Hc h1) as (c' & hn1 & -> & Hvc & Hwc & Hdc).
      destruct (IHcs (h1 ++ hn1)) as (cs' & hn2 & -> & Hvcs & Hwcs & Hdcs).
      exists (c' :: cs'), (hn1 ++ hn2). rewrite !app_assoc.
      split; [done|]. simpl. split; [|split].
      + rewrite Hvcs, andb_true_r.
        apply (valid_mono (length (h1 ++ hn1))); [|done].
        rewrite (length_app (h1 ++ hn1)). lia.
      + by rewrite (view_extend _ _ _ _ Hvc), Hwc, Hwcs.
      + by rewrite Hdc, Hdcs. }
  exists (Elem t (length h) x cs'),
    ([Imp.ODict (map (λ kv, (kv.1, Imp.RStr kv.2)) a)] ++ hn).
  rewrite app_assoc. fold h1. split; [done|].
  destruct (attrs_at_stored h a hn) as [Hattrs Hok]. fold h1 in Hattrs, Hok.
  simpl. split; [|split].
  - by rewrite Hok, Hv.
  - by rewrite Hattrs, Hw.
  - by rewrite Hd.
Qed.

(** ** The limit on nested calls is reached by deeper trees *)

Lemma bind_inl {A B} (m : Imp.M A) (f : A → Imp.M B) h e :
  m h = inl e → (m ≫= f) h = inl e.
Proof.
  intros Hm. unfold mbind, Imp.M_bind, Imp.bind. by rewrite Hm.
Qed.

Lemma for_each_app {A} (xs ys : list A) (body : A → Imp.M unit) h :
  Imp.for_each (xs ++ ys) body h
  = (Imp.for_each xs body ≫= λ _, Imp.for_each ys body) h.
Proof.
  revert h. induction xs as [|x xs IH]; intros h; simpl; [done|].
  unfold mbind, Imp.M_bind, Imp.bind in *.
  destruct (body x h) as [e|[[] h1]]; [done|]. apply IH.
Qed.

(** The first child that is deeper than [n]. *)
Lemma first_deep_child {A} (cs : list (Element A)) (n : nat) :
  n < foldr Nat.max 0 (map depth cs) →
  ∃ pre c post,
    cs = pre ++ c :: post ∧ Forall (λ c', depth c' ≤ n) pre ∧ n < depth c.
Proof.
  induction cs as [|c cs IH]; simpl; [lia|]. intros Hn.
  destruct (decide (n < depth c)) as [Hc|Hc].
  - exists [], c, cs. by repeat split.
  - destruct IH as (pre & c' & post & -> & Hpre & Hc'); [lia|].
    exists (c :: pre), c', post. repeat split; [|done].
    constructor; [lia|done].
Qed.

(** A tree that is deeper than the limit makes the converter raise
    [RecursionError]: the calls nest exactly as deep as the tree. *)
Lemma too_deep_raises b limit (element : Element Imp.loc) h :
  b ≤ length h → Imp.valid b h element = true →
  limit < depth element →
  Imp.xml_to_dict_recursive limit element h = inl Imp.RecursionError.
Proof.
  revert element h.
  induction limit as [|limit IH]; intros element h Hb Hvalid Hdepth;
    [done|].
  destruct (valid_inv b h element Hvalid) as [Hattr Hcs].
  assert (∃ pre c post,
            children element = pre ++ c :: post
            ∧ Forall (λ c', depth c' ≤ limit) pre ∧ limit < depth c)
    as (pre & c & post & Hsplit & Hpre & Hc).
  { apply first_deep_child. destruct element. simpl in *. lia. }
  rewrite xml_to_dict_recursive_unfold.
  rewrite (bind_inr _ _ h (length h) (h ++ [Imp.ODict []]) eq_refl).
  destruct (prologue_spec b h element Hb Hattr) as (early & d' & Hpro & Hpure).
  assert (∀ B (k : option pystr → Imp.M B),
            (Imp.add_attributes element (Imp.RLoc (length h)) ≫= λ _,
             Imp.add_text element (Imp.RLoc (length h)) ≫= k)
              (h ++ [Imp.ODict []])
            = k early (h ++ [Imp.ODict d'])) as Hpro'.
  { intros B k. revert Hpro. unfold mbind, Imp.M_bind, Imp.bind.
    destruct (Imp.add_attributes _ _ _) as [?|[[] h2]]; [done|].
    by intros ->. }
  rewrite Hpro'.
  destruct early as [s|].
  { destruct (add_text_inr (Imp.view h element)
                           (add_attributes (Imp.view h element)))
      as [result Hres]; [|by rewrite Hres in Hpure].
    rewrite view_children, Hsplit. by destruct pre. }
  destruct Hpure as (result & _ & Hrel).
  set (lr := length h) in *. set (h1 := h ++ [Imp.ODict d']) in *.
  assert (loop_inv b lr h h1 result) as Hinv.
  { exists d', []. split; [by apply list_lookup_middle|]. split; [done|].
    split; [by intros l ?%elem_of_nil|].
    split; [by intros ????? ?%elem_of_nil|].
    intros l Hl. by apply lookup_app_l. }
  destruct (for_each_spec b lr h (Imp.xml_to_dict_recursive limit) pre)
    with (h := h1) (d := result)
    as (h2 & Hloop & Hlen & d'' & own & Hlr & _ & _ & _ & Hold);
    [done| |done|].
  { apply Forall_forall. intros c' Hc'. split.
    - apply run_spec. by eapply Forall_forall in Hpre.
    - apply Hcs. rewrite Hsplit. apply elem_of_app. by left. }
  apply bind_inl. rewrite Hsplit, for_each_app.
  rewrite (bind_inr _ _ _ _ _ Hloop). simpl.
  apply bind_inl. unfold Imp.add_child. apply bind_inl.
  assert (length h < length h1) as Hlen1.
  { unfold h1. rewrite length_app. simpl. lia. }
  apply IH; [lia| |done].
  rewrite (valid_agree b h h2).
  - apply Hcs. rewrite Hsplit. apply elem_of_app. right. by left.
  - intros l Hl. apply Hold. lia.
Qed.

(** ** The two embeddings together *)

(** For every element tree, put into any store: with a limit that is at least
    the depth of the tree the imperative converter returns a reference that
    stands for what the functional converter returns. *)
Lemma imperative_agrees_with_functional (element : Element attrs)
    (h : Imp.heap) (limit : nat) :
  depth element ≤ limit →
  ∃ r h',
    Imp.xml_to_dict_recursive limit (Imp.store_tree element h).1
                              (Imp.store_tree element h).2
    = inr (r, h')
    ∧ Imp.reads h' r (xml_to_dict_recursive element).
Proof.
  intros Hdepth.
  destruct (store_tree_spec element h) as (stored & hn & -> & Hv & Hw & Hd).
  simpl.
  destruct (run_spec (length (h ++ hn)) limit stored) with (h := h ++ hn)
    as (r & hn' & Hrun & Hden & _); [lia|done|done|].
  exists r, ((h ++ hn) ++ hn'). split; [done|]. rewrite Hw in Hden.
  eapply denotes_mono; [|exact Hden]. by intros l _ _.
Qed.

(** ** The sample document, converted *)

Example xml_to_dict_library : xml_to_dict Sample.library = Sample.library_json.
Proof. by vm_compute. Qed.

(** [<book id="1"><title>Clean Code</title><author>R. Martin</author></book>] *)
Example xml_to_dict_recursive_book :
  xml_to_dict_recursive
    (Elem (str "book") [(str "id", str "1")] None
          [Sample.leaf "title" [] "Clean Code";
           Sample.leaf "author" [] "R. Martin"])
  = VDict [ (str "@attributes", VDict [(str "id", VStr (str "1"))]);
            (str "title", VStr (str "Clean Code"));
            (str "author", VStr (str "R. Martin")) ].
Proof. by vm_compute. Qed.

(** The imperative converter on the sample document: the call returns the new
    dictionary at address 19, and its ["@attributes"] entry is address 0,
    the [attrib] dictionary of the root element itself. *)
Example imperative_library :
  attrib Sample.library_in_store.1 = 0
  ∧ length Sample.library_in_store.2 = 19
  ∧ ∃ d h',
      Imp.xml_to_dict_recursive 3 Sample.library_in_store.1
                                Sample.library_in_store.2
      = inr (Imp.RLoc 19, h')
      ∧ h' !! 19 = Some (Imp.ODict d)
      ∧ dict_get d (str "@attributes") = Some (Imp.RLoc 0)
      ∧ dict_keys d = [str "@attributes"; str "book"].
Proof.
  split; [done|]. split; [done|].
  destruct (Imp.xml_to_dict_recursive 3 Sample.library_in_store.1
                                      Sample.library_in_store.2)
    as [e|[r h']] eqn:Hrun; vm_compute in Hrun; [done|].
  injection Hrun as <- <-. eexists _, _. split; [done|]. by vm_compute.
Qed.

(** With a limit of two nested calls the converter raises on the sample
    document, whose depth is three. *)
Example imperative_library_limit :
  depth Sample.library_in_store.1 = 3
  ∧ Imp.xml_to_dict_recursive 2 Sample.library_in_store.1
                              Sample.library_in_store.2
    = inl Imp.RecursionError.
Proof. split; by vm_compute. Qed.

(** * The converter's contract *)

(** ** Leaf elements *)

(** A leaf with non-empty stripped text yields that text, whether it has
    attributes or not: line 283 returns before [result] is used. *)
Lemma leaf_with_text (element : Element attrs) (t : pystr) :
  children element = [] → text element = Some t → strip t ≠ [] →
  xml_to_dict_recursive element = VStr (strip t).
Proof.
  intros Hcs Ht Hne. rewrite xml_to_dict_recursive_eq. unfold add_text.
  by rewrite Ht, Hcs, strip_nonempty_truthy.
Qed.

(** A leaf whose text is absent or blank yields [result] as the attribute
    block left it. *)
Lemma leaf_without_text (element : Element attrs) :
  children element = [] →
  (∀ t, text element = Some t → strip t = []) →
  xml_to_dict_recursive element = VDict (add_attributes element).
Proof.
  intros Hcs Hblank. rewrite xml_to_dict_recursive_eq.
  destruct (add_text_cases element (add_attributes element))
    as [(t & Ht & Hne & _)|[(t & _ & _ & Hne & _)|[_ ->]]].
  - by destruct (Hne (Hblank t Ht)).
  - by destruct (Hne Hcs).
  - by rewrite Hcs.
Qed.

(** A leaf with attributes and blank text: the dictionary holds the
    attributes and nothing else. *)
Lemma leaf_attributes_only (element : Element attrs) :
  children element = [] → attrib element ≠ [] →
  (∀ t, text element = Some t → strip t = []) →
  xml_to_dict_recursive element
  = VDict [(str "@attributes", attrib_value (attrib element))].
Proof.
  intros Hcs Ha Hblank. rewrite leaf_without_text by done.
  unfold add_attributes. by destruct (attrib element).
Qed.

(** C1 (the code departs from it).  The claim: a leaf with attributes yields
    a dictionary with ["@attributes"] and, when its stripped text is not
    empty, ["text"].  On [<price currency="USD">29.99</price>] of the sample
    document the converter yields the bare string ["29.99"]: no dictionary,
    and the [currency] attribute is lost. *)
Theorem leaf_with_attributes_and_text_loses_attributes :
  children Sample.price1 = []
  ∧ attrib Sample.price1 = [(str "currency", str "USD")]
  ∧ text Sample.price1 = Some (str "29.99")
  ∧ xml_to_dict_recursive Sample.price1 = VStr (str "29.99")
  ∧ ∀ d, xml_to_dict_recursive Sample.price1 ≠ VDict d.
Proof. repeat split. by vm_compute. Qed.

(** C3.  An element with no attributes, no children and non-empty stripped
    text [T] is converted to the string [T] itself. *)
Theorem leaf_text_collapses (element : Element attrs) (t : pystr) :
  attrib element = [] → children element = [] →
  text element = Some t → strip t ≠ [] →
  xml_to_dict_recursive element = VStr (strip t).
Proof. intros _. apply leaf_with_text. Qed.

Lemma leaf_text_collapses_witness :
  xml_to_dict_recursive (Sample.leaf "title" [] "Clean Code")
  = VStr (strip (str "Clean Code")).
Proof.
  apply (leaf_text_collapses (Sample.leaf "title" [] "Clean Code")
                             (str "Clean Code"));
    [reflexivity | reflexivity | reflexivity | by vm_compute].
Defined.

(** C9.  An element with no attributes, no children and text that is absent
    or made of white space only is converted to the empty dictionary. *)
Theorem blank_leaf_gives_empty_dict (element : Element attrs) :
  attrib element = [] → children element = [] →
  (text element = None
   ∨ ∃ t, text element = Some t ∧ forallb isspace t = true) →
  xml_to_dict_recursive element = VDict [].
Proof.
  intros Ha Hcs Hblank. rewrite leaf_without_text.
  - unfold add_attributes. by rewrite Ha.
  - done.
  - intros t Ht. destruct Hblank as [Hnone|(t' & Ht' & Hsp)].
    + by rewrite Hnone in Ht.
    + rewrite Ht in Ht'. injection Ht' as <-. by apply strip_all_space.
Qed.

Lemma blank_leaf_gives_empty_dict_witness :
  xml_to_dict_recursive (Elem (str "br") [] (Sample.indent 2) []) = VDict [].
Proof.
  apply (blank_leaf_gives_empty_dict (Elem (str "br") [] (Sample.indent 2) []));
    [reflexivity | reflexivity |].
  right. exists (10%N :: repeat 32%N 2). split; reflexivity.
Defined.

(** ** The document *)

(** C6.  The top-level result is a dictionary with exactly one key, the tag
    of the root, and its value is the conversion of the root. *)
Theorem xml_to_dict_single_key (root : Element attrs) :
  ∃ d, xml_to_dict root = VDict d
       ∧ dict_keys d = [tag root]
       ∧ dict_get d (tag root) = Some (xml_to_dict_recursive root).
Proof.
  eexists. split; [reflexivity|]. split; [reflexivity|].
  apply dict_get_set_eq.
Qed.

(** ** Elements with children *)

(** How one pass of the loop changes the entry of the child's tag. *)
Lemma add_child_policy (result : dict value) (child : Element attrs) :
  let v := xml_to_dict_recursive child in
  (dict_get result (tag child) = None →
     add_child xml_to_dict_recursive result child
     = dict_set result (tag child) v)
  ∧ (∀ cur, dict_get result (tag child) = Some cur →
       isinstance_list cur = false →
       add_child xml_to_dict_recursive result child
       = dict_set result (tag child) (VList [cur; v]))
  ∧ (∀ l, dict_get result (tag child) = Some (VList l) →
       add_child xml_to_dict_recursive result child
       = dict_set result (tag child) (VList (l ++ [v]))).
Proof.
  unfold add_child. repeat split.
  - by intros ->.
  - intros cur -> Hcur. by destruct cur.
  - by intros l ->.
Qed.

(** C2, as written, fails: in [<a>hello<text>x</text><text>y</text></a>] two
    children share the tag [text], and the entry ["text"] is a list of
    three items, the element's own text first. *)
Lemma repeated_tag_counterexample :
  ¬ (∀ (element : Element attrs) (N : pystr),
       2 ≤ length (children_with_tag N element) →
       ∃ d, xml_to_dict_recursive element = VDict d
            ∧ dict_get d N
              = Some (VList (xml_to_dict_recursive
                               <$> children_with_tag N element))).
Proof.
  intros H.
  destruct (H Sample.mixed2 (str "text")) as (d & Hd & Hget).
  - vm_compute. lia.
  - vm_compute in Hd. injection Hd as <-. vm_compute in Hget. discriminate.
Qed.

(** C2 (amended).  If [k ≥ 2] children of an element share the tag [N], and
    [N] is not a key that the element's own attributes or text occupy, the
    dictionary maps [N] to the list of the [k] converted children in
    document order.  The list is built one child at a time: a tag that is not
    yet a key is stored directly; a tag whose entry is not a list gets the
    two-item list of that entry and the new value; a tag whose entry is a
    list gets the new value appended. *)
Theorem repeated_tag_gives_list (element : Element attrs) (N : pystr) :
  ¬ own_key element N →
  2 ≤ length (children_with_tag N element) →
  (∃ d, xml_to_dict_recursive element = VDict d
        ∧ dict_get d N
          = Some (VList (xml_to_dict_recursive
                           <$> children_with_tag N element))
        ∧ length (xml_to_dict_recursive <$> children_with_tag N element)
          = length (children_with_tag N element))
  ∧ ∀ (result : dict value) (child : Element attrs),
      let v := xml_to_dict_recursive child in
      (dict_get result (tag child) = None →
         add_child xml_to_dict_recursive result child
         = dict_set result (tag child) v)
      ∧ (∀ cur, dict_get result (tag child) = Some cur →
           isinstance_list cur = false →
           add_child xml_to_dict_recursive result child
           = dict_set result (tag child) (VList [cur; v]))
      ∧ (∀ l, dict_get result (tag child) = Some (VList l) →
           add_child xml_to_dict_recursive result child
           = dict_set result (tag child) (VList (l ++ [v]))).
Proof.
  intros Hfree Hk. split; [|apply add_child_policy].
  assert (children element ≠ []) as Hcs.
  { apply (children_with_tag_nonempty N).
    destruct (children_with_tag N element); simpl in Hk; [lia|done]. }
  destruct (xml_to_dict_recursive_children element Hcs) as [d Hd].
  destruct (xml_to_dict_recursive_get element d Hd) as (result & Hres & Hget).
  destruct (loop_start element result Hres) as (_ & Hnone & _).
  exists d. split; [done|]. split; [|apply length_fmap].
  rewrite Hget, (Hnone N Hfree).
  destruct (children_with_tag N element) as [|c1 [|c2 cs]];
    simpl in Hk; [lia|lia|done].
Qed.

Lemma repeated_tag_gives_list_witness :
  ∃ d, xml_to_dict_recursive Sample.library = VDict d
       ∧ dict_get d (str "book")
         = Some (VList (xml_to_dict_recursive
                          <$> children_with_tag (str "book") Sample.library))
       ∧ length (xml_to_dict_recursive
                   <$> children_with_tag (str "book") Sample.library)
         = length (children_with_tag (str "book") Sample.library).
Proof.
  apply (repeated_tag_gives_list Sample.library (str "book")).
  - intros [[Hk _]|[Hk _]]; vm_compute in Hk; discriminate Hk.
  - vm_compute. lia.
Defined.

(** C5, as written, fails: in [<a>hello<text>x</text></a>] the only child
    has the tag [text], and the entry ["text"] is the list of the element's
    own text and the converted child. *)
Lemma single_child_counterexample :
  ¬ (∀ (element C : Element attrs) (N : pystr),
       children_with_tag N element = [C] →
       ∃ d, xml_to_dict_recursive element = VDict d
            ∧ dict_get d N = Some (xml_to_dict_recursive C)).
Proof.
  intros H.
  destruct (H Sample.mixed (Sample.leaf "text" [] "x") (str "text"))
    as (d & Hd & Hget).
  - by vm_compute.
  - vm_compute in Hd. injection Hd as <-. vm_compute in Hget. discriminate.
Qed.

(** C5 (amended).  If exactly one child [C] of an element has the tag [N],
    and [N] is not a key that the element's own attributes or text occupy,
    the dictionary maps [N] to the conversion of [C] itself, which is not a
    list. *)
Theorem single_child_stored_directly
    (element C : Element attrs) (N : pystr) :
  ¬ own_key element N →
  children_with_tag N element = [C] →
  ∃ d, xml_to_dict_recursive element = VDict d
       ∧ dict_get d N = Some (xml_to_dict_recursive C)
       ∧ isinstance_list (xml_to_dict_recursive C) = false.
Proof.
  intros Hfree HC.
  assert (children element ≠ []) as Hcs.
  { apply (children_with_tag_nonempty N). by rewrite HC. }
  destruct (xml_to_dict_recursive_children element Hcs) as [d Hd].
  destruct (xml_to_dict_recursive_get element d Hd) as (result & Hres & Hget).
  destruct (loop_start element result Hres) as (_ & Hnone & _).
  exists d. split; [done|].
  split; [|apply xml_to_dict_recursive_not_list].
  by rewrite Hget, (Hnone N Hfree), HC.
Qed.

Lemma single_child_stored_directly_witness :
  ∃ d, xml_to_dict_recursive Sample.book1 = VDict d
       ∧ dict_get d (str "title")
         = Some (xml_to_dict_recursive (Sample.leaf "title" [] "Clean Code"))
       ∧ isinstance_list
           (xml_to_dict_recursive (Sample.leaf "title" [] "Clean Code"))
         = false.
Proof.
  apply (single_child_stored_directly
           Sample.book1 (Sample.leaf "title" [] "Clean Code") (str "title")).
  - intros [[Hk _]|[Hk _]]; vm_compute in Hk; discriminate Hk.
  - by vm_compute.
Defined.

(** C4, as written, fails: [<a>hello<text>x</text></a>] has a child and the
    non-empty text ["hello"], and the entry ["text"] is not that text but the
    list of the text and the converted child. *)
Lemma element_with_children_counterexample :
  ¬ (∀ element : Element attrs,
       children element ≠ [] →
       ∃ d, xml_to_dict_recursive element = VDict d
            ∧ (∀ t, text element = Some t → strip t ≠ [] →
                 dict_get d (str "text") = Some (VStr (strip t)))
            ∧ (∀ c, c ∈ children element →
                 ∃ w, dict_get d (tag c) = Some w
                      ∧ (w = xml_to_dict_recursive c
                         ∨ ∃ l, w = VList l ∧ xml_to_dict_recursive c ∈ l))).
Proof.
  intros H. destruct (H Sample.mixed) as (d & Hd & Htext & _); [done|].
  specialize (Htext (str "hello") eq_refl).
  vm_compute in Hd. injection Hd as <-.
  vm_compute in Htext. by specialize (Htext ltac:(discriminate)).
Qed.

(** C4 (amended).  An element with at least one child is converted to a
    dictionary.  Each child's converted value is found under the child's tag,
    as the entry itself or as an item of the list stored there.  If the
    element's stripped text is not empty and no child has the tag [text],
    the entry ["text"] is the stripped text. *)
Theorem element_with_children_gives_dict (element : Element attrs) :
  children element ≠ [] →
  ∃ d, xml_to_dict_recursive element = VDict d
       ∧ (∀ t, text element = Some t → strip t ≠ [] →
            children_with_tag (str "text") element = [] →
            dict_get d (str "text") = Some (VStr (strip t)))
       ∧ (∀ c, c ∈ children element →
            ∃ w, dict_get d (tag c) = Some w
                 ∧ (w = xml_to_dict_recursive c
                    ∨ ∃ l, w = VList l ∧ xml_to_dict_recursive c ∈ l)).
Proof.
  intros Hcs.
  destruct (xml_to_dict_recursive_children element Hcs) as [d Hd].
  destruct (xml_to_dict_recursive_get element d Hd) as (result & Hres & Hget).
  destruct (loop_start element result Hres) as (Htext & _).
  exists d. split; [done|]. split.
  - intros t Ht Hne Hnone. by rewrite Hget, Hnone, (Htext t Ht Hne).
  - intros c Hc. rewrite Hget. apply stored_contains.
    apply list_elem_of_fmap_2. by apply list_elem_of_filter.
Qed.

Lemma element_with_children_gives_dict_witness :
  ∃ d, xml_to_dict_recursive Sample.book1 = VDict d
       ∧ (∀ t, text Sample.book1 = Some t → strip t ≠ [] →
            children_with_tag (str "text") Sample.book1 = [] →
            dict_get d (str "text") = Some (VStr (strip t)))
       ∧ (∀ c, c ∈ children Sample.book1 →
            ∃ w, dict_get d (tag c) = Some w
                 ∧ (w = xml_to_dict_recursive c
                    ∨ ∃ l, w = VList l ∧ xml_to_dict_recursive c ∈ l)).
Proof.
  apply (element_with_children_gives_dict Sample.book1). by vm_compute.
Defined.

(** ** The shape of the result *)

(** C10, as written, fails in its second part: in
    [<a>hello<text>x</text></a>] a list is stored under ["text"], a tag
    that only one child has. *)
Lemma list_entry_counterexample :
  ¬ (∀ element : Element attrs,
       ((∃ s, xml_to_dict_recursive element = VStr s)
        ∨ (∃ d, xml_to_dict_recursive element = VDict d))
       ∧ ∀ d k l,
           xml_to_dict_recursive element = VDict d →
           dict_get d k = Some (VList l) →
           2 ≤ length (children_with_tag k element)).
Proof.
  intros H. destruct (H Sample.mixed) as [_ Hlist].
  specialize (Hlist [(str "text", VList [VStr (str "hello"); VStr (str "x")])]
                    (str "text") [VStr (str "hello"); VStr (str "x")]).
  vm_compute in Hlist. specialize (Hlist eq_refl eq_refl). lia.
Qed.

(** C10 (amended).  The converter returns a string or a dictionary, never a
    list.  Throughout the returned value a list occurs only as an entry of a
    dictionary and holds no list.  An entry of the returned dictionary that
    is a list is stored under the tag of a child, and either two or more
    children have that tag or the tag is one of the element's own keys
    (["text"] or ["@attributes"]). *)
Theorem converted_value_shape (element : Element attrs) :
  ((∃ s, xml_to_dict_recursive element = VStr s)
   ∨ (∃ d, xml_to_dict_recursive element = VDict d))
  ∧ shaped false (xml_to_dict_recursive element) = true
  ∧ ∀ d k l,
      xml_to_dict_recursive element = VDict d →
      dict_get d k = Some (VList l) →
      children_with_tag k element ≠ []
      ∧ (2 ≤ length (children_with_tag k element) ∨ own_key element k).
Proof.
  split; [|split].
  - pose proof (xml_to_dict_recursive_not_list element) as Hnl.
    destruct (xml_to_dict_recursive element) as [s|d|l]; [|
      |done]; [left|right]; by eexists.
  - apply xml_to_dict_recursive_shaped.
  - intros d k l Hd Hl.
    destruct (xml_to_dict_recursive_get element d Hd) as (result & Hres & Hget).
    destruct (loop_start element result Hres) as (_ & _ & Hown).
    rewrite Hget in Hl.
    destruct (children_with_tag k element) as [|c1 cs] eqn:Hcs; simpl in Hl.
    { by destruct (Hown k (VList l) Hl). }
    split; [done|].
    destruct (dict_get result k) as [cur|] eqn:Hcur.
    { right. by destruct (Hown k cur Hcur). }
    left. destruct cs as [|c2 cs]; simpl; [|lia].
    injection Hl as Hl.
    pose proof (xml_to_dict_recursive_not_list c1) as Hnl.
    by rewrite Hl in Hnl.
Qed.

Lemma converted_value_shape_witness :
  children_with_tag (str "book") Sample.library ≠ []
  ∧ (2 ≤ length (children_with_tag (str "book") Sample.library)
     ∨ own_key Sample.library (str "book")).
Proof.
  destruct (converted_value_shape Sample.library) as (_ & _ & Hlist).
  apply (Hlist
           match xml_to_dict_recursive Sample.library with
           | VDict d => d
           | _ => []
           end
           (str "book")
           (xml_to_dict_recursive <$> children Sample.library)).
  - vm_compute. reflexivity.
  - vm_compute. reflexivity.
Defined.

(** ** Calls, the store and the limit on nested calls *)

(** C7.  On every valid element tree the converter raises no exception and
    returns: a call returns a reference and a store whenever the number of
    nested calls that the interpreter allows is at least the depth of the
    tree.  The calls nest no deeper than the tree. *)
Theorem converter_total (h : Imp.heap) (element : Element Imp.loc)
    (limit : nat) :
  Imp.valid (length h) h element = true →
  depth element ≤ limit →
  ∃ r h', Imp.xml_to_dict_recursive limit element h = inr (r, h').
Proof.
  intros Hvalid Hdepth.
  destruct (run_spec (length h) limit element Hdepth h) as (r & hn & Hrun & _);
    [done|done|].
  by exists r, (h ++ hn).
Qed.

Lemma converter_total_witness :
  ∃ r h', Imp.xml_to_dict_recursive 3 Sample.library_in_store.1
                                    Sample.library_in_store.2
          = inr (r, h').
Proof.
  apply (converter_total Sample.library_in_store.2
                         Sample.library_in_store.1 3).
  - vm_compute. reflexivity.
  - vm_compute. lia.
Defined.

(** C8.  A call changes no object that was in the store before it, so the
    element tree is as it was; what it returns is a [str] or a new object;
    and the value that the returned reference stands for is the functional
    conversion of the element tree, whatever else the store holds.  Two
    calls on the same tree, one after the other, return references that
    stand for the same value, and for no other. *)
Theorem conversion_pure_deterministic (h : Imp.heap)
    (element : Element Imp.loc) (limit : nat) :
  Imp.valid (length h) h element = true →
  depth element ≤ limit →
  ∃ r1 h1 r2 h2,
    Imp.xml_to_dict_recursive limit element h = inr (r1, h1)
    ∧ Imp.xml_to_dict_recursive limit element h1 = inr (r2, h2)
    ∧ h `prefix_of` h1 ∧ h1 `prefix_of` h2
    ∧ Imp.view h1 element = Imp.view h element
    ∧ Imp.view h2 element = Imp.view h element
    ∧ (∀ l, r1 = Imp.RLoc l → length h ≤ l)
    ∧ (∀ l, r2 = Imp.RLoc l → length h1 ≤ l)
    ∧ Imp.reads h1 r1 (xml_to_dict_recursive (Imp.view h element))
    ∧ Imp.reads h2 r1 (xml_to_dict_recursive (Imp.view h element))
    ∧ Imp.reads h2 r2 (xml_to_dict_recursive (Imp.view h element))
    ∧ ∀ v1 v2, Imp.reads h2 r1 v1 → Imp.reads h2 r2 v2 → v1 = v2.
Proof.
  intros Hvalid Hdepth.
  pose proof (run_spec (length h) limit element Hdepth) as Hcall.
  destruct (Hcall h) as (r1 & hn1 & Hrun1 & Hden1 & Hnew1); [done|done|].
  assert (∀ l, l < length h → (h ++ hn1) !! l = h !! l) as Hagree1
    by (intros l Hl; by apply lookup_app_l).
  assert (Imp.view (h ++ hn1) element = Imp.view h element) as Hview1
    by (by eapply view_agree).
  destruct (Hcall (h ++ hn1)) as (r2 & hn2 & Hrun2 & Hden2 & Hnew2).
  { rewrite length_app. lia. }
  { by rewrite (valid_agree (length h) h (h ++ hn1)). }
  rewrite Hview1 in Hden2.
  assert (∀ l, l < length h → ((h ++ hn1) ++ hn2) !! l = h !! l) as Hagree2.
  { intros l Hl. rewrite <- app_assoc. by apply lookup_app_l. }
  exists r1, (h ++ hn1), r2, ((h ++ hn1) ++ hn2).
  split; [done|]. split; [done|].
  split; [by apply prefix_app_r|]. split; [by apply prefix_app_r|].
  split; [done|]. split; [by eapply view_agree|].
  split; [intros l ->; by destruct Hnew1|].
  split; [intros l ->; by destruct Hnew2|].
  assert (Imp.reads ((h ++ hn1) ++ hn2) r1
            (xml_to_dict_recursive (Imp.view h element))) as Hr1.
  { eapply denotes_mono; [|exact Hden1]. intros l _ Hl.
    split; [done|]. by apply lookup_app_l. }
  assert (Imp.reads ((h ++ hn1) ++ hn2) r2
            (xml_to_dict_recursive (Imp.view h element))) as Hr2.
  { eapply denotes_mono; [|exact Hden2]. by intros l _ _. }
  split; [|split; [done|split; [done|]]].
  - eapply denotes_mono; [|exact Hden1]. by intros l _ _.
  - intros v1 v2 Hv1 Hv2.
    rewrite (denotes_functional _ _ _ _ _ _ Hv1 Hr1).
    by rewrite (denotes_functional _ _ _ _ _ _ Hv2 Hr2).
Qed.

Lemma conversion_pure_deterministic_witness :
  ∃ r1 h1 r2 h2,
    Imp.xml_to_dict_recursive 3 Sample.library_in_store.1
                              Sample.library_in_store.2
    = inr (r1, h1)
    ∧ Imp.xml_to_dict_recursive 3 Sample.library_in_store.1 h1 = inr (r2, h2)
    ∧ Sample.library_in_store.2 `prefix_of` h1 ∧ h1 `prefix_of` h2
    ∧ Imp.view h1 Sample.library_in_store.1
      = Imp.view Sample.library_in_store.2 Sample.library_in_store.1
    ∧ Imp.view h2 Sample.library_in_store.1
      = Imp.view Sample.library_in_store.2 Sample.library_in_store.1
    ∧ (∀ l, r1 = Imp.RLoc l → length Sample.library_in_store.2 ≤ l)
    ∧ (∀ l, r2 = Imp.RLoc l → length h1 ≤ l)
    ∧ Imp.reads h1 r1
        (xml_to_dict_recursive
           (Imp.view Sample.library_in_store.2 Sample.library_in_store.1))
    ∧ Imp.reads h2 r1
        (xml_to_dict_recursive
           (Imp.view Sample.library_in_store.2 Sample.library_in_store.1))
    ∧ Imp.reads h2 r2
        (xml_to_dict_recursive
           (Imp.view Sample.library_in_store.2 Sample.library_in_store.1))
    ∧ ∀ v1 v2, Imp.reads h2 r1 v1 → Imp.reads h2 r2 v2 → v1 = v2.
Proof.
  apply (conversion_pure_deterministic Sample.library_in_store.2
                                       Sample.library_in_store.1 3).
  - vm_compute. reflexivity.
  - vm_compute. lia.
Defined.

(** * More about the converter *)

(** ** The keys of a result, in the order in which [json.dumps] prints them *)

Lemma dict_mem_keys {V} (d : dict V) (k : pystr) :
  dict_mem d k = true ↔ k ∈ dict_keys d.
Proof.
  unfold dict_mem, dict_keys. induction d as [|[k' v] d IH]; simpl.
  - split; [done|]. by intros ?%elem_of_nil.
  - destruct (decide (k' = k)) as [->|Hne].
    + split; [|done]. intros _. by left.
    + rewrite IH. split; [by right|].
      intros [?|?]%elem_of_cons; [congruence|done].
Qed.

Lemma dict_keys_set_see {V} (d : dict V) (k : pystr) (v : V) :
  dict_keys (dict_set d k v) = see (dict_keys d) k.
Proof.
  rewrite dict_keys_set. unfold see.
  destruct (dict_mem d k) eqn:Hmem.
  - apply dict_mem_keys in Hmem. by rewrite decide_True.
  - rewrite decide_False; [done|]. intros Hin%dict_mem_keys. congruence.
Qed.

Lemma add_child_keys (conv : Element attrs → value) (result : dict value)
    (child : Element attrs) :
  dict_keys (add_child conv result child)
  = see (dict_keys result) (tag child).
Proof.
  unfold add_child.
  destruct (dict_get result (tag child)); apply dict_keys_set_see.
Qed.

Lemma fold_add_child_keys (conv : Element attrs → value)
    (cs : list (Element attrs)) (result : dict value) :
  dict_keys (fold_left (add_child conv) cs result)
  = fold_left see (map tag cs) (dict_keys result).
Proof.
  revert result. induction cs as [|c cs IH]; intros result; simpl; [done|].
  by rewrite IH, add_child_keys.
Qed.

Lemma see_NoDup (seen : list pystr) (k : pystr) :
  NoDup seen → NoDup (see seen k).
Proof.
  intros Hnd. unfold see. destruct (decide (k ∈ seen)); [done|].
  apply NoDup_app. split; [done|]. split; [|apply NoDup_singleton].
  intros x Hx ->%list_elem_of_singleton. done.
Qed.

Lemma fold_see_NoDup (ks seen : list pystr) :
  NoDup seen → NoDup (fold_left see ks seen).
Proof.
  revert seen. induction ks as [|k ks IH]; intros seen Hnd; simpl; [done|].
  by apply IH, see_NoDup.
Qed.

Lemma fold_see_start (seen ks : list pystr) :
  NoDup seen → fold_left see ks seen = first_seen (seen ++ ks).
Proof.
  intros Hnd. unfold first_seen. rewrite fold_left_app. f_equal.
  assert (∀ acc, NoDup (acc ++ seen) →
                 fold_left see seen acc = acc ++ seen) as Hgen.
  { clear Hnd. induction seen as [|k seen IH]; intros acc Hnd; simpl.
    - by rewrite app_nil_r.
    - assert (k ∉ acc) as Hk.
      { apply NoDup_app in Hnd as (_ & Hdisj & _). intros Hin.
        apply (Hdisj k Hin). by left. }
      unfold see at 2. rewrite decide_False by done.
      rewrite IH; [by rewrite <- app_assoc|].
      by rewrite <- app_assoc. }
  symmetry. by apply (Hgen []).
Qed.

Lemma loop_start_keys (element : Element attrs) (result : dict value) :
  add_text element (add_attributes element) = inr result →
  dict_keys result = own_keys element ∧ NoDup (own_keys element).
Proof.
  assert (dict_keys (add_attributes element)
          = if dict_truthy (attrib element) then [str "@attributes"] else [])
    as Hattr.
  { unfold add_attributes. by destruct (dict_truthy (attrib element)). }
  assert (NoDup (dict_keys (add_attributes element))) as Hnd.
  { rewrite Hattr. destruct (dict_truthy (attrib element));
      [apply NoDup_singleton|constructor]. }
  assert (str "text" ∉ dict_keys (add_attributes element)) as Hnotin.
  { rewrite Hattr. destruct (dict_truthy (attrib element)).
    - intros Hin%list_elem_of_singleton. by vm_compute in Hin.
    - by intros ?%elem_of_nil. }
  unfold own_keys. rewrite <- Hattr.
  destruct (add_text_cases element (add_attributes element))
    as [(t & _ & _ & _ & ->)|[(t & -> & Hne & _ & ->)|[Hblank ->]]];
    [done| |]; intros [= <-].
  - apply str_truthy_spec in Hne. rewrite Hne.
    rewrite dict_keys_set_see. unfold see. rewrite decide_False by done.
    split; [done|]. apply NoDup_app. split; [done|].
    split; [|apply NoDup_singleton].
    by intros x Hx ->%list_elem_of_singleton.
  - destruct (text element) as [t|]; [|by rewrite app_nil_r].
    rewrite (Hblank t eq_refl). simpl. by rewrite app_nil_r.
Qed.

(** X1.  The keys of a returned dictionary are the element's own keys
    (["@attributes"], then ["text"]) followed by the tags of the children,
    each key once, in the order of its first occurrence. *)
Theorem xml_to_dict_recursive_keys (element : Element attrs)
    (d : dict value) :
  xml_to_dict_recursive element = VDict d →
  dict_keys d = first_seen (own_keys element ++ map tag (children element))
  ∧ NoDup (dict_keys d).
Proof.
  rewrite xml_to_dict_recursive_eq.
  destruct (add_text element (add_attributes element)) as [s|result] eqn:Hres;
    [done|].
  intros [= <-]. destruct (loop_start_keys element result Hres) as [Hk Hnd].
  rewrite fold_add_child_keys, Hk. split.
  - by apply fold_see_start.
  - by apply fold_see_NoDup.
Qed.

Lemma xml_to_dict_recursive_keys_witness :
  dict_keys
    match xml_to_dict_recursive Sample.book1 with VDict d => d | _ => [] end
  = first_seen (own_keys Sample.book1 ++ map tag (children Sample.book1))
  ∧ NoDup (dict_keys
             match xml_to_dict_recursive Sample.book1 with
             | VDict d => d
             | _ => []
             end).
Proof.
  apply (xml_to_dict_recursive_keys Sample.book1). vm_compute. reflexivity.
Defined.

(** ** A child whose tag is one of the element's own keys *)

(** X2.  When children have the tag [text] and the element's stripped text
    is not empty, the entry ["text"] is the list of that text followed by the
    converted children with the tag, in document order; likewise for
    children with the tag [@attributes] and the element's attributes. *)
Theorem own_key_merged_with_children (element : Element attrs)
    (d : dict value) :
  xml_to_dict_recursive element = VDict d →
  (∀ t, text element = Some t → strip t ≠ [] →
     children_with_tag (str "text") element ≠ [] →
     dict_get d (str "text")
     = Some (VList (VStr (strip t)
                      :: (xml_to_dict_recursive
                            <$> children_with_tag (str "text") element))))
  ∧ (attrib element ≠ [] →
     children_with_tag (str "@attributes") element ≠ [] →
     dict_get d (str "@attributes")
     = Some (VList (attrib_value (attrib element)
                      :: (xml_to_dict_recursive
                            <$> children_with_tag (str "@attributes")
                                                  element)))).
Proof.
  intros Hd.
  destruct (xml_to_dict_recursive_get element d Hd) as (result & Hres & Hget).
  destruct (loop_start element result Hres) as (Htext & _ & _).
  split.
  - intros t Ht Hne Hcs. rewrite Hget, (Htext t Ht Hne).
    by destruct (children_with_tag (str "text") element).
  - intros Ha Hcs. rewrite Hget.
    assert (dict_get result (str "@attributes")
            = Some (attrib_value (attrib element))) as ->.
    { revert Hres.
      destruct (add_text_cases element (add_attributes element))
        as [(t & _ & _ & _ & ->)|[(t & _ & _ & _ & ->)|[_ ->]]];
        [done| |]; intros [= <-].
      - rewrite dict_get_set_ne by (by vm_compute).
        rewrite add_attributes_get. by rewrite decide_True.
      - rewrite add_attributes_get. by rewrite decide_True. }
    by destruct (children_with_tag (str "@attributes") element).
Qed.

Lemma own_key_merged_with_children_witness :
  dict_get
    match xml_to_dict_recursive Sample.mixed2 with VDict d => d | _ => [] end
    (str "text")
  = Some (VList (VStr (strip (str "hello"))
                   :: (xml_to_dict_recursive
                         <$> children_with_tag (str "text") Sample.mixed2))).
Proof.
  refine (proj1 (own_key_merged_with_children Sample.mixed2 _ _)
                (str "hello") _ _ _).
  - vm_compute. reflexivity.
  - reflexivity.
  - by vm_compute.
  - by vm_compute.
Defined.

(** ** String results *)

Lemma lstrip_split (s : pystr) :
  ∃ pre, s = pre ++ lstrip s ∧ forallb isspace pre = true.
Proof.
  induction s as [|c s (pre & Hs & Hpre)]; simpl.
  - by exists [].
  - destruct (isspace c) eqn:Hc.
    + exists (c :: pre). simpl. rewrite Hc, Hpre. split; [|done].
      by rewrite <- Hs.
    + by exists [].
Qed.

Lemma lstrip_head (s : pystr) (c : N) :
  head (lstrip s) = Some c → isspace c = false.
Proof.
  induction s as [|c' s IH]; simpl; [done|].
  destruct (isspace c') eqn:Hc; [done|]. simpl. by intros [= <-].
Qed.

Lemma rstrip_split (s : pystr) :
  ∃ post, s = rstrip s ++ post ∧ forallb isspace post = true.
Proof.
  unfold rstrip. destruct (lstrip_split (rev s)) as (pre & Hs & Hpre).
  exists (rev pre). split.
  - rewrite <- rev_app_distr, <- Hs. by rewrite rev_involutive.
  - rewrite forallb_forall in *. intros x Hx. apply Hpre.
    by apply in_rev.
Qed.

Lemma rstrip_last (s : pystr) (c : N) :
  last (rstrip s) = Some c → isspace c = false.
Proof.
  unfold rstrip. intros Hlast. apply (lstrip_head (rev s)).
  destruct (lstrip (rev s)) as [|c' l]; [done|].
  simpl in Hlast. by rewrite last_snoc in Hlast.
Qed.

(** [strip] takes white space off both ends and nothing else. *)
Lemma strip_split (s : pystr) :
  ∃ pre post,
    s = pre ++ strip s ++ post
    ∧ forallb isspace pre = true ∧ forallb isspace post = true
    ∧ (∀ c, head (strip s) = Some c → isspace c = false)
    ∧ (∀ c, last (strip s) = Some c → isspace c = false).
Proof.
  destruct (lstrip_split s) as (pre & Hs & Hpre).
  destruct (rstrip_split (lstrip s)) as (post & Hl & Hpost).
  exists pre, post. unfold strip. split; [by rewrite <- Hl|].
  split; [done|]. split; [done|]. split; [|apply rstrip_last].
  intros c Hc. apply (lstrip_head s). rewrite Hl.
  by destruct (rstrip (lstrip s)).
Qed.

(** X3.  A string is returned for leaves only; it is never empty, it is the
    element's text without the white space at its two ends, and it neither
    starts nor ends with white space. *)
Theorem string_result_is_stripped_leaf_text (element : Element attrs)
    (s : pystr) :
  xml_to_dict_recursive element = VStr s →
  children element = []
  ∧ s ≠ []
  ∧ ∃ t pre post,
      text element = Some t
      ∧ t = pre ++ s ++ post
      ∧ forallb isspace pre = true ∧ forallb isspace post = true
      ∧ (∀ c, head s = Some c → isspace c = false)
      ∧ (∀ c, last s = Some c → isspace c = false).
Proof.
  rewrite xml_to_dict_recursive_eq.
  destruct (add_text_cases element (add_attributes element))
    as [(t & Ht & Hne & Hcs & ->)|[(t & _ & _ & _ & ->)|[_ ->]]];
    [|done|done].
  intros [= <-]. split; [done|]. split; [done|].
  destruct (strip_split t) as (pre & post & H1 & H2 & H3 & H4 & H5).
  by exists t, pre, post.
Qed.

Lemma string_result_is_stripped_leaf_text_witness :
  children Sample.price1 = []
  ∧ str "29.99" ≠ []
  ∧ ∃ t pre post,
      text Sample.price1 = Some t
      ∧ t = pre ++ str "29.99" ++ post
      ∧ forallb isspace pre = true ∧ forallb isspace post = true
      ∧ (∀ c, head (str "29.99") = Some c → isspace c = false)
      ∧ (∀ c, last (str "29.99") = Some c → isspace c = false).
Proof.
  apply (string_result_is_stripped_leaf_text Sample.price1 (str "29.99")).
  vm_compute. reflexivity.
Defined.

(** ** The result shares the element's attributes *)

Lemma getitem_missing h l d k :
  h !! l = Some (Imp.ODict d) → dict_get d k = None →
  Imp.getitem (Imp.RLoc l) k h = inl Imp.KeyError.
Proof.
  intros Hl Hk. unfold Imp.getitem.
  rewrite (bind_inr _ _ _ _ _ (the_dict_eq _ _ _ Hl)). by rewrite Hk.
Qed.

(** One pass of the loop leaves the entries of [result] under other keys as
    they are. *)
Lemma add_child_frame conv lr (c : Element Imp.loc) h rc h1 h' d0 :
  conv c h = inr (rc, h1) →
  h1 !! lr = Some (Imp.ODict d0) →
  Imp.add_child conv (Imp.RLoc lr) c h = inr (tt, h') →
  ∃ d1, h' !! lr = Some (Imp.ODict d1)
        ∧ ∀ k, k ≠ tag c → dict_get d1 k = dict_get d0 k.
Proof.
  intros Hconv Hlr. unfold Imp.add_child.
  rewrite (bind_inr _ _ _ _ _ Hconv).
  rewrite (bind_inr _ _ _ _ _ (contains_eq _ _ _ (tag c) Hlr)).
  assert (lr < length h1) as Hlt by (by eapply lookup_lt_Some).
  destruct (dict_mem d0 (tag c)) eqn:Hmem.
  - destruct (dict_get d0 (tag c)) as [cur|] eqn:Hcur;
      [|by unfold dict_mem in Hmem; rewrite Hcur in Hmem].
    rewrite (bind_inr _ _ _ _ _ (getitem_eq _ _ _ _ _ Hlr Hcur)).
    destruct (Imp.isinstance_list cur h1) as [e|[b h1']] eqn:His;
      [by rewrite (bind_inl _ _ _ _ His)|].
    rewrite (bind_inr _ _ _ _ _ His).
    assert (h1' = h1) as ->.
    { unfold Imp.isinstance_list in His. by repeat case_match; simplify_eq. }
    assert (∀ h2 d2 x,
              h2 !! lr = Some (Imp.ODict d2) →
              (∀ k, k ≠ tag c → dict_get d2 k = dict_get d0 k) →
              (Imp.getitem (Imp.RLoc lr) (tag c) ≫= λ cur' : Imp.ref,
               Imp.append cur' x) h2 = inr (tt, h') →
              ∃ d1, h' !! lr = Some (Imp.ODict d1)
                    ∧ ∀ k, k ≠ tag c → dict_get d1 k = dict_get d0 k)
      as Hfinish.
    { intros h2 d2 x Hlr2 Hsame.
      destruct (dict_get d2 (tag c)) as [cur'|] eqn:Hcur'.
      - rewrite (bind_inr _ _ _ _ _ (getitem_eq _ _ _ _ _ Hlr2 Hcur')).
        unfold Imp.append. destruct cur' as [s|l]; [done|].
        destruct (h2 !! l) as [[dl|items]|] eqn:Hl; [done| |done].
        intros [= <-]. exists d2. split; [|done].
        rewrite list_lookup_insert_ne; [done|]. intros ->.
        by rewrite Hlr2 in Hl.
      - by rewrite (bind_inl _ _ _ _ (getitem_missing _ _ _ _ Hlr2 Hcur')). }
    destruct b; simpl negb; cbv iota.
    + rewrite (bind_inr _ _ h1 tt h1 eq_refl). by apply (Hfinish h1 d0).
    + set (h2 := h1 ++ [Imp.OList [cur]]).
      set (h3 := <[lr := Imp.ODict (dict_set d0 (tag c)
                                       (Imp.RLoc (length h1)))]> h2).
      assert ((Imp.getitem (Imp.RLoc lr) (tag c)
                 ≫= λ cur0, Imp.new_list [cur0]
                 ≫= λ l, Imp.setitem (Imp.RLoc lr) (tag c) (Imp.RLoc l))
                h1 = inr (tt, h3)) as Hpromote.
      { rewrite (bind_inr _ _ _ _ _ (getitem_eq _ _ _ _ _ Hlr Hcur)).
        rewrite (bind_inr _ _ h1 (length h1) h2 eq_refl).
        erewrite setitem_eq; [done|]. unfold h2. by rewrite lookup_app_l. }
      rewrite (bind_inr _ _ _ _ _ Hpromote).
      apply (Hfinish h3 (dict_set d0 (tag c) (Imp.RLoc (length h1)))).
      * unfold h3. apply list_lookup_insert_eq. unfold h2.
        rewrite length_app. lia.
      * intros k Hk. by rewrite dict_get_set_ne.
  - rewrite (setitem_eq _ _ _ _ _ Hlr). intros [= <-].
    eexists. split; [by apply list_lookup_insert_eq|].
    intros k Hk. by rewrite dict_get_set_ne.
Qed.

Lemma for_each_frame b lr h0 conv (cs : list (Element Imp.loc)) k x :
  b ≤ lr →
  Forall (λ c, call_ok b conv c ∧ Imp.valid b h0 c = true ∧ tag c ≠ k) cs →
  ∀ h d d0,
    loop_inv b lr h0 h d →
    h !! lr = Some (Imp.ODict d0) → dict_get d0 k = Some x →
    ∃ h' d1,
      Imp.for_each cs (Imp.add_child conv (Imp.RLoc lr)) h = inr (tt, h')
      ∧ h' !! lr = Some (Imp.ODict d1) ∧ dict_get d1 k = Some x
      ∧ ∀ l, l < lr → h' !! l = h0 !! l.
Proof.
  intros Hb Hcs.
  induction Hcs as [|c cs (Hcall & Hvalid & Hk) _ IH];
    intros h d d0 Hinv Hlr Hx; simpl.
  - exists h, d0. repeat split; try done.
    by destruct Hinv as (? & ? & _ & _ & _ & _ & Hold).
  - destruct (add_child_step b lr h0 conv c h d Hb Hcall Hvalid Hinv)
      as (h1 & Hstep & Hlen1 & Hinv1).
    assert (lr < length h) as Hlt by (by eapply lookup_lt_Some).
    destruct (Hcall h) as (rc & hn & Hconv & _); [lia| |].
    { destruct Hinv as (? & ? & _ & _ & _ & _ & Hold).
      rewrite (valid_agree b h0 h); [done|].
      intros l Hl. apply Hold. lia. }
    destruct (add_child_frame conv lr c h rc (h ++ hn) h1 d0)
      as (d1 & Hlr1 & Hsame); [done|by rewrite lookup_app_l|done|].
    destruct (IH h1 _ d1 Hinv1 Hlr1) as (h2 & d2 & Hrest & Hlr2 & Hx2 & Hold2).
    { rewrite Hsame by done. done. }
    exists h2, d2. by rewrite (bind_inr _ _ _ _ _ Hstep).
Qed.

Lemma prologue_attributes b h (element : Element Imp.loc) early d' :
  b ≤ length h →
  Imp.attrib_ok b h (attrib element) = true →
  Imp.attrs_at h (attrib element) ≠ [] →
  (Imp.add_attributes element (Imp.RLoc (length h))
     ≫= λ _, Imp.add_text element (Imp.RLoc (length h)))
    (h ++ [Imp.ODict []])
  = inr (early, h ++ [Imp.ODict d']) →
  dict_get d' (str "@attributes") = Some (Imp.RLoc (attrib element)).
Proof.
  intros Hb Hok Hne.
  assert (∀ o k x,
            Imp.setitem (Imp.RLoc (length h)) k x (h ++ [Imp.ODict o])
            = inr (tt, h ++ [Imp.ODict (dict_set o k x)])) as Hset.
  { intros o k x. erewrite setitem_eq by (by apply list_lookup_middle).
    rewrite insert_app_r_alt by lia. by rewrite Nat.sub_diag. }
  destruct (attrib_denotes (λ _, True) b h (attrib element))
    as (da & Ha & Hab & Htruthy & _); [done|done|].
  assert ((h ++ [Imp.ODict []]) !! attrib element = Some (Imp.ODict da))
    as Ha1 by (by rewrite lookup_app_l by lia).
  assert (Imp.add_attributes element (Imp.RLoc (length h))
                             (h ++ [Imp.ODict []])
          = inr (tt, h ++ [Imp.ODict [(str "@attributes",
                                       Imp.RLoc (attrib element))]]))
    as Hattr.
  { unfold Imp.add_attributes.
    rewrite (bind_inr _ _ _ _ _ (truthy_eq _ _ _ Ha1)), Htruthy.
    destruct (Imp.attrs_at h (attrib element)); [done|]. apply Hset. }
  rewrite (bind_inr _ _ _ _ _ Hattr).
  unfold Imp.add_text.
  assert (∀ e1 : option pystr,
            @inr Imp.exn _
                 (e1, h ++ [Imp.ODict [(str "@attributes",
                                        Imp.RLoc (attrib element))]])
            = inr (early, h ++ [Imp.ODict d']) →
            dict_get d' (str "@attributes")
            = Some (Imp.RLoc (attrib element))) as Hsame.
  { intros e1 [= _ Hd%app_inv_head]. injection Hd as <-.
    apply (dict_get_set_eq []). }
  destruct (text element) as [t|]; [|apply Hsame].
  destruct (str_truthy t && str_truthy (strip t)); [|apply Hsame].
  destruct (length (children element) =? 0); [apply Hsame|].
  rewrite (bind_inr _ _ _ _ _ (Hset _ _ _)).
  intros [= _ Hd%app_inv_head]. injection Hd as <-.
  by vm_compute.
Qed.

(** X4.  When an element with attributes is converted to a dictionary and no
    child has the tag [@attributes], the ["@attributes"] entry of the new
    dictionary is the address of the element's own [attrib] dictionary: the
    result and the element tree share that object, which the call leaves as
    it was. *)
Theorem attributes_entry_is_shared (h : Imp.heap)
    (element : Element Imp.loc) (limit : nat) :
  Imp.valid (length h) h element = true →
  depth element ≤ limit →
  Imp.attrs_at h (attrib element) ≠ [] →
  children_with_tag (str "@attributes") element = [] →
  (children element ≠ [] ∨ ∀ t, text element = Some t → strip t = []) →
  ∃ l h' d,
    Imp.xml_to_dict_recursive limit element h = inr (Imp.RLoc l, h')
    ∧ h' !! l = Some (Imp.ODict d)
    ∧ dict_get d (str "@attributes") = Some (Imp.RLoc (attrib element))
    ∧ h' !! attrib element = h !! attrib element.
Proof.
  intros Hvalid Hdepth Hattrs Hnone Hdict.
  destruct limit as [|limit]; [destruct element; simpl in Hdepth; lia|].
  destruct (valid_inv _ h element Hvalid) as [Hattr Hcs].
  rewrite xml_to_dict_recursive_unfold.
  rewrite (bind_inr _ _ h (length h) (h ++ [Imp.ODict []]) eq_refl).
  destruct (prologue_spec (length h) h element (le_n _) Hattr)
    as (early & d' & Hpro & Hpure).
  pose proof (prologue_attributes _ h element early d' (le_n _) Hattr
                Hattrs Hpro) as Hentry.
  assert (∀ B (k : option pystr → Imp.M B),
            (Imp.add_attributes element (Imp.RLoc (length h)) ≫= λ _,
             Imp.add_text element (Imp.RLoc (length h)) ≫= k)
              (h ++ [Imp.ODict []])
            = k early (h ++ [Imp.ODict d'])) as Hpro'.
  { intros B k. revert Hpro. unfold mbind, Imp.M_bind, Imp.bind.
    destruct (Imp.add_attributes _ _ _) as [?|[[] h2]]; [done|].
    by intros ->. }
  rewrite Hpro'.
  destruct early as [s|].
  { exfalso.
    destruct (add_text_cases (Imp.view h element)
                             (add_attributes (Imp.view h element)))
      as [(t & Ht & Hne & Hnil & _)|[(t & _ & _ & _ & Heq)|[_ Heq]]];
      [|by rewrite Heq in Hpure..].
    rewrite view_text in Ht. rewrite view_children in Hnil.
    destruct Hdict as [Hcs'|Hblank]; [|by apply Hne, Hblank].
    by destruct (children element). }
  destruct Hpure as (result & _ & Hrel).
  set (lr := length h) in *. set (h1 := h ++ [Imp.ODict d']) in *.
  assert (loop_inv lr lr h h1 result) as Hinv.
  { exists d', []. split; [by apply list_lookup_middle|]. split; [done|].
    split; [by intros l ?%elem_of_nil|].
    split; [by intros ????? ?%elem_of_nil|].
    intros l Hl. by apply lookup_app_l. }
  destruct (for_each_frame lr lr h (Imp.xml_to_dict_recursive limit)
              (children element) (str "@attributes")
              (Imp.RLoc (attrib element)))
    with (h := h1) (d := result) (d0 := d')
    as (h' & d1 & Hloop & Hlr & Hentry' & Hold);
    [done| |done|by apply list_lookup_middle|done|].
  { apply Forall_forall. intros c Hc. split; [|split; [by apply Hcs|]].
    - apply run_spec. apply depth_child in Hc. lia.
    - intros Htag. unfold children_with_tag in Hnone.
      exact (filter_nil_not_elem_of _ _ c Hnone Htag Hc). }
  rewrite (bind_inr _ _ _ _ _ Hloop).
  exists lr, h', d1. repeat split; try done.
  apply Hold. unfold Imp.attrib_ok in Hattr.
  apply andb_true_iff in Hattr as [Hlt _]. by apply Nat.ltb_lt in Hlt.
Qed.

Lemma attributes_entry_is_shared_witness :
  ∃ l h' d,
    Imp.xml_to_dict_recursive 3 Sample.library_in_store.1
                              Sample.library_in_store.2
    = inr (Imp.RLoc l, h')
    ∧ h' !! l = Some (Imp.ODict d)
    ∧ dict_get d (str "@attributes")
      = Some (Imp.RLoc (attrib Sample.library_in_store.1))
    ∧ h' !! attrib Sample.library_in_store.1
      = Sample.library_in_store.2 !! attrib Sample.library_in_store.1.
Proof.
  apply (attributes_entry_is_shared Sample.library_in_store.2
                                    Sample.library_in_store.1 3).
  - vm_compute. reflexivity.
  - vm_compute. lia.
  - by vm_compute.
  - vm_compute. reflexivity.
  - left. by vm_compute.
Defined.

(** X5.  The calls nest exactly as deep as the tree: when the interpreter
    allows fewer nested calls than the depth of a valid element tree, the
    converter raises [RecursionError]. *)
Theorem deeper_than_limit_raises (h : Imp.heap)
    (element : Element Imp.loc) (limit : nat) :
  Imp.valid (length h) h element = true →
  limit < depth element →
  Imp.xml_to_dict_recursive limit element h = inl Imp.RecursionError.
Proof. intros Hvalid Hdepth. by eapply too_deep_raises. Qed.

Lemma deeper_than_limit_raises_witness :
  Imp.xml_to_dict_recursive 2 Sample.library_in_store.1
                            Sample.library_in_store.2
  = inl Imp.RecursionError.
Proof.
  apply (deeper_than_limit_raises Sample.library_in_store.2
                                  Sample.library_in_store.1 2).
  - vm_compute. reflexivity.
  - vm_compute. lia.
Defined.

(** * The SAX handlers *)

(** ** [BookSAXHandler] *)

Section BookSAXHandler_facts.
Context {F : Type} (float : pystr → option F).

Abbreviation handler := (BookSAXHandler.handler F).
Abbreviation parse := (BookSAXHandler.parse float).
Abbreviation handle := (BookSAXHandler.handle float).

Lemma book_parse_app (self : handler) (es1 es2 : list event) :
  parse self (es1 ++ es2)
  = match parse self es1 with
    | inr self1 => parse self1 es2
    | inl exn => inl exn
    end.
Proof.
  revert self. induction es1 as [|e es1 IH]; intros self; simpl; [done|].
  by destruct (handle self e).
Qed.

Lemma book_parse_characters (self : handler) (chunks : list pystr) :
  parse self (Characters <$> chunks)
  = inr {| BookSAXHandler.books := BookSAXHandler.books self;
           BookSAXHandler.current_book := BookSAXHandler.current_book self;
           BookSAXHandler.current_tag := BookSAXHandler.current_tag self;
           BookSAXHandler.current_content :=
             BookSAXHandler.current_content self ++ joined chunks |}.
Proof.
  revert self. induction chunks as [|c chunks IH]; intros self; simpl.
  - destruct self. simpl. by rewrite app_nil_r.
  - rewrite IH. simpl. unfold joined. simpl. by rewrite app_assoc.
Qed.

(** A start tag or an end tag leaves no character data behind. *)
Lemma book_handle_resets (self self1 : handler) (e : event) :
  is_characters e = false → handle self e = inr self1 →
  BookSAXHandler.current_content self1 = [].
Proof.
  destruct e as [name attrs|content|name]; simpl; [|done|].
  - intros _ [= <-]. unfold BookSAXHandler.startElement.
    by repeat case_decide.
  - intros _. unfold BookSAXHandler.endElement.
    repeat case_decide; try (by intros [= <-]).
    destruct (float _); [by intros [= <-]|done].
Qed.

Lemma book_content_after (self self1 : handler) (es : list event)
    (e : event) (chunks : list pystr) :
  is_characters e = false →
  parse self (es ++ [e]) = inr self1 →
  parse self (es ++ e :: (Characters <$> chunks))
  = inr {| BookSAXHandler.books := BookSAXHandler.books self1;
           BookSAXHandler.current_book := BookSAXHandler.current_book self1;
           BookSAXHandler.current_tag := BookSAXHandler.current_tag self1;
           BookSAXHandler.current_content := joined chunks |}.
Proof.
  intros He. rewrite !book_parse_app.
  destruct (parse self es) as [exn|self0]; [done|]. simpl.
  destruct (handle self0 e) as [exn|self1'] eqn:Hh; [done|].
  intros [= <-]. rewrite book_parse_characters.
  by rewrite (book_handle_resets _ _ _ He Hh).
Qed.

(** X6.  At the end tag of [title], [author], [published] or [description]
    the handler records, under that name, the character data received since
    the most recent start or end tag: every piece stripped, the pieces
    joined.  Text before a nested element and white space at the ends of a
    piece are not recorded. *)
Theorem book_text_field_recorded (self self1 : handler) (es : list event)
    (e : event) (chunks : list pystr) (name : pystr) :
  name ∈ BookSAXHandler.text_fields →
  is_characters e = false →
  parse self (es ++ [e]) = inr self1 →
  parse self (es ++ e :: (Characters <$> chunks) ++ [EndElement name])
  = inr {| BookSAXHandler.books := BookSAXHandler.books self1;
           BookSAXHandler.current_book :=
             dict_set (BookSAXHandler.current_book self1) name
                      (BookSAXHandler.IStr (joined chunks));
           BookSAXHandler.current_tag := BookSAXHandler.current_tag self1;
           BookSAXHandler.current_content := [] |}.
Proof.
  intros Hname He Hpre.
  rewrite app_comm_cons, app_assoc, book_parse_app.
  rewrite (book_content_after self self1 es e chunks He Hpre). simpl.
  unfold BookSAXHandler.endElement. simpl.
  rewrite decide_False.
  - by rewrite decide_True.
  - intros ->. by vm_compute in Hname; repeat
      (apply elem_of_cons in Hname as [Hname|Hname]; [discriminate Hname|]);
      apply elem_of_nil in Hname.
Qed.

(** X7.  At the end tag of [price] the handler converts the character data
    received since the most recent start or end tag with [float]: it records
    the number under ["price"], or the parse stops with [ValueError] and
    nothing after it is handled. *)
Theorem book_price_recorded (self self1 : handler) (es rest : list event)
    (e : event) (chunks : list pystr) :
  is_characters e = false →
  parse self (es ++ [e]) = inr self1 →
  parse self
        (es ++ e :: (Characters <$> chunks) ++ EndElement (str "price") :: rest)
  = match float (joined chunks) with
    | Some x =>
        parse {| BookSAXHandler.books := BookSAXHandler.books self1;
                 BookSAXHandler.current_book :=
                   dict_set (BookSAXHandler.current_book self1) (str "price")
                            (BookSAXHandler.IFloat x);
                 BookSAXHandler.current_tag :=
                   BookSAXHandler.current_tag self1;
                 BookSAXHandler.current_content := [] |}
              rest
    | None => inl ValueError
    end.
Proof.
  intros He Hpre.
  rewrite app_comm_cons, app_assoc, book_parse_app.
  rewrite (book_content_after self self1 es e chunks He Hpre). simpl.
  unfold BookSAXHandler.endElement. simpl.
  by destruct (float (joined chunks)).
Qed.
Lemma book_handle_books (self self1 : handler) (e : event) :
  handle self e = inr self1 →
  BookSAXHandler.books self1
  = BookSAXHandler.books self
    ++ (if is_book_end e then [BookSAXHandler.current_book self] else []).
Proof.
  destruct e as [name attrs|content|name]; simpl.
  - intros [= <-]. unfold BookSAXHandler.startElement.
    repeat case_decide; simpl; by rewrite app_nil_r.
  - intros [= <-]. simpl. by rewrite app_nil_r.
  - unfold BookSAXHandler.endElement.
    destruct (decide (name = str "book")) as [->|Hne].
    + intros [= <-]. by rewrite bool_decide_eq_true_2.
    + rewrite bool_decide_eq_false_2 by done.
      rewrite app_nil_r. repeat case_decide; try (by intros [= <-]).
      destruct (float _); [by intros [= <-]|done].
Qed.

(** X8.  The list [books] only grows: a parse that returns has added one
    dictionary for each [book] end tag, after the dictionaries that were
    there, which it leaves as they were. *)
Theorem book_list_grows (self self1 : handler) (es : list event) :
  parse self es = inr self1 →
  ∃ new, BookSAXHandler.books self1 = BookSAXHandler.books self ++ new
         ∧ length new = book_ends es.
Proof.
  revert self. induction es as [|e es IH]; intros self; simpl.
  - intros [= <-]. exists []. by rewrite app_nil_r.
  - destruct (handle self e) as [exn|self0] eqn:Hh; [done|].
    intros Hrest. destruct (IH self0 Hrest) as (new & Hnew & Hlen).
    rewrite Hnew, (book_handle_books _ _ _ Hh), <- app_assoc.
    eexists. split; [done|]. rewrite length_app, Hlen.
    unfold book_ends. simpl. by destruct (is_book_end e).
Qed.

(** Two handlers that differ in [books] only handle a call alike. *)
Lemma book_handle_alike (self1 self2 self1' : handler) (e : event) :
  BookSAXHandler.current_book self1 = BookSAXHandler.current_book self2 →
  BookSAXHandler.current_tag self1 = BookSAXHandler.current_tag self2 →
  BookSAXHandler.current_content self1
  = BookSAXHandler.current_content self2 →
  handle self1 e = inr self1' →
  ∃ self2',
    handle self2 e = inr self2'
    ∧ BookSAXHandler.current_book self1'
      = BookSAXHandler.current_book self2'
    ∧ BookSAXHandler.current_tag self1' = BookSAXHandler.current_tag self2'
    ∧ BookSAXHandler.current_content self1'
      = BookSAXHandler.current_content self2'.
Proof.
  destruct self1 as [bs1 b1 t1 c1], self2 as [bs2 b2 t2 c2]. simpl.
  intros -> -> ->.
  destruct e as [name attrs|content|name]; simpl.
  - intros [= <-]. eexists. split; [done|].
    unfold BookSAXHandler.startElement. simpl. by repeat case_decide.
  - intros [= <-]. by eexists.
  - unfold BookSAXHandler.endElement. simpl.
    repeat case_decide; try (intros [= <-]; by eexists).
    destruct (float c2); [|done]. intros [= <-]. by eexists.
Qed.

(** X9.  What a handler records from a [book] start tag on does not depend
    on what it has handled before: from any two states the same calls give
    the same new book dictionaries and leave the same unfinished book, or
    stop with an exception in both. *)
Theorem book_record_independent (self1 self2 self1' : handler)
    (attrs : dict pystr) (es : list event) :
  parse self1 (StartElement (str "book") attrs :: es) = inr self1' →
  ∃ self2' new,
    parse self2 (StartElement (str "book") attrs :: es) = inr self2'
    ∧ BookSAXHandler.books self1' = BookSAXHandler.books self1 ++ new
    ∧ BookSAXHandler.books self2' = BookSAXHandler.books self2 ++ new
    ∧ BookSAXHandler.current_book self1'
      = BookSAXHandler.current_book self2'
    ∧ BookSAXHandler.current_content self1'
      = BookSAXHandler.current_content self2'.
Proof.
  assert (∀ es (a b a' : handler),
            BookSAXHandler.current_book a = BookSAXHandler.current_book b →
            BookSAXHandler.current_tag a = BookSAXHandler.current_tag b →
            BookSAXHandler.current_content a
            = BookSAXHandler.current_content b →
            parse a es = inr a' →
            ∃ b' new,
              parse b es = inr b'
              ∧ BookSAXHandler.books a' = BookSAXHandler.books a ++ new
              ∧ BookSAXHandler.books b' = BookSAXHandler.books b ++ new
              ∧ BookSAXHandler.current_book a'
                = BookSAXHandler.current_book b'
              ∧ BookSAXHandler.current_content a'
                = BookSAXHandler.current_content b') as Hgen.
  { clear. intros es. induction es as [|e es IH]; intros a b a' Hb Ht Hc; simpl.
    - intros [= <-]. exists b, []. by rewrite !app_nil_r.
    - destruct (handle a e) as [exn|a0] eqn:Ha; [done|]. intros Hrest.
      destruct (book_handle_alike a b a0 e Hb Ht Hc Ha)
        as (b0 & Hb0 & Hb' & Ht' & Hc').
      rewrite Hb0.
      destruct (IH a0 b0 a' Hb' Ht' Hc' Hrest)
        as (b' & new & Hpb & Hna & Hnb & Hfb & Hfc).
      exists b', ((if is_book_end e
                   then [BookSAXHandler.current_book a] else []) ++ new).
      split; [done|].
      rewrite Hna, Hnb, (book_handle_books _ _ _ Ha),
        (book_handle_books _ _ _ Hb0), Hb, <- !app_assoc.
      by repeat split. }
  simpl. intros Hparse.
  destruct (Hgen es
              (BookSAXHandler.startElement self1 (str "book") attrs)
              (BookSAXHandler.startElement self2 (str "book") attrs)
              self1')
    as (b' & new & Hpb & Hna & Hnb & Hfb & Hfc); [done..|].
  exists b', new. by repeat split.
Qed.
(** One call inside a book: the keys of the unfinished book afterwards, and
    the entries that stay. *)
Lemma book_handle_keys (self self1 : handler) (e : event) :
  inside_book e = true → handle self e = inr self1 →
  BookSAXHandler.books self1 = BookSAXHandler.books self
  ∧ ∀ k, (assigns k e = true →
            is_Some (dict_get (BookSAXHandler.current_book self1) k))
         ∧ (assigns k e = false →
              dict_get (BookSAXHandler.current_book self1) k
              = dict_get (BookSAXHandler.current_book self) k).
Proof.
  destruct e as [name attrs|content|name]; simpl.
  - intros Hin%bool_decide_eq_true [= <-].
    unfold BookSAXHandler.startElement.
    rewrite decide_False by done. split; [by case_decide|].
    intros k. split.
    + intros [-> ->]%bool_decide_eq_true. rewrite decide_True by done.
      simpl. rewrite dict_get_set_eq. by eexists.
    + intros Hk%bool_decide_eq_false. case_decide as Hp; [|done].
      simpl. apply dict_get_set_ne. intros <-. by apply Hk.
  - intros _ [= <-]. split; [done|]. by intros k.
  - intros Hin%bool_decide_eq_true. unfold BookSAXHandler.endElement.
    rewrite decide_False by done.
    destruct (decide (name ∈ BookSAXHandler.text_fields)) as [Hf|Hf].
    + intros [= <-]. split; [done|]. intros k. simpl. split.
      * intros [[_ ->]|[-> _]]%bool_decide_eq_true.
        -- rewrite dict_get_set_eq. by eexists.
        -- by vm_compute in Hf; repeat
             (apply elem_of_cons in Hf as [Hf|Hf]; [discriminate Hf|]);
             apply elem_of_nil in Hf.
      * intros Hk%bool_decide_eq_false. apply dict_get_set_ne.
        intros <-. apply Hk. by left.
    + destruct (decide (name = str "price")) as [->|Hp].
      * destruct (float _); [|done]. intros [= <-]. split; [done|].
        intros k. simpl. split.
        -- intros [[? _]|[_ ->]]%bool_decide_eq_true; [done|].
           rewrite dict_get_set_eq. by eexists.
        -- intros Hk%bool_decide_eq_false. apply dict_get_set_ne.
           intros <-. apply Hk. by right.
      * intros [= <-]. split; [done|]. intros k. simpl. split; [|done].
        by intros [[? _]|[? _]]%bool_decide_eq_true.
Qed.

Lemma book_parse_keys (self self1 : handler) (es : list event) :
  forallb inside_book es = true → parse self es = inr self1 →
  BookSAXHandler.books self1 = BookSAXHandler.books self
  ∧ ∀ k, (existsb (assigns k) es = true →
            is_Some (dict_get (BookSAXHandler.current_book self1) k))
         ∧ (existsb (assigns k) es = false →
              dict_get (BookSAXHandler.current_book self1) k
              = dict_get (BookSAXHandler.current_book self) k).
Proof.
  revert self. induction es as [|e es IH]; intros self; simpl.
  - intros _ [= <-]. split; [done|]. by intros k.
  - intros [He Hes]%andb_true_iff.
    destruct (handle self e) as [exn|self0] eqn:Hh; [done|]. intros Hrest.
    destruct (book_handle_keys _ _ _ He Hh) as [Hb0 Hk0].
    destruct (IH self0 Hes Hrest) as [Hb1 Hk1].
    split; [by rewrite Hb1|]. intros k.
    destruct (Hk0 k) as [Hset0 Hkeep0]. destruct (Hk1 k) as [Hset1 Hkeep1].
    destruct (existsb (assigns k) es) eqn:Hex.
    + rewrite orb_true_r. split; [intros _; by apply Hset1|done].
    + rewrite orb_false_r. rewrite Hkeep1 by done.
      destruct (assigns k e); split; try done; intros _; auto.
Qed.

(** X14.  The dictionary that is added for a book, from its start tag to its
    end tag with no other [book] tag between them: ["id"] and ["category"]
    are always keys, with [None] for an attribute that the start tag does
    not have; any other key is there exactly when a tag between them has
    assigned to it, so a book without a [price] element has neither
    ["price"] nor ["currency"]. *)
Theorem book_record_keys (self self1 : handler) (attrs : dict pystr)
    (body : list event) :
  forallb inside_book body = true →
  parse self (StartElement (str "book") attrs
                :: body ++ [EndElement (str "book")])
  = inr self1 →
  ∃ record,
    BookSAXHandler.books self1 = BookSAXHandler.books self ++ [record]
    ∧ dict_get record (str "id")
      = Some (BookSAXHandler.get attrs (str "id"))
    ∧ dict_get record (str "category")
      = Some (BookSAXHandler.get attrs (str "category"))
    ∧ ∀ k, k ≠ str "id" → k ≠ str "category" →
           (is_Some (dict_get record k)
            ↔ existsb (assigns k) body = true).
Proof.
  intros Hbody. simpl. rewrite book_parse_app.
  destruct (parse (BookSAXHandler.startElement self (str "book") attrs) body)
    as [exn|self0] eqn:Hparse; [done|].
  destruct (book_parse_keys _ _ _ Hbody Hparse) as [Hbooks Hkeys].
  simpl. intros [= <-]. simpl. exists (BookSAXHandler.current_book self0).
  split; [by rewrite Hbooks|].
  assert (∀ k, existsb (assigns k) body = false →
               dict_get (BookSAXHandler.current_book self0) k
               = dict_get [(str "id", BookSAXHandler.get attrs (str "id"));
                           (str "category",
                            BookSAXHandler.get attrs (str "category"))] k)
    as Hkeep.
  { intros k Hk. by rewrite (proj2 (Hkeys k) Hk). }
  assert (∀ k, (k = str "id" ∨ k = str "category") →
               existsb (assigns k) body = false) as Hnever.
  { intros k Hk. apply not_true_iff_false. intros Hex.
    apply existsb_exists in Hex as (e & _ & He).
    destruct e as [name a|c|name]; simpl in He; [|done|].
    - apply bool_decide_eq_true in He as [_ ->].
      destruct Hk as [Hk|Hk]; by vm_compute in Hk.
    - apply bool_decide_eq_true in He as [[Hf ->]|[_ ->]].
      + unfold BookSAXHandler.text_fields in Hf.
        destruct Hk as [->| ->]; vm_compute in Hf;
          repeat (apply elem_of_cons in Hf as [Hf|Hf]; [discriminate Hf|]);
          by apply elem_of_nil in Hf.
      + destruct Hk as [Hk|Hk]; by vm_compute in Hk. }
  split; [|split].
  - rewrite Hkeep by (apply Hnever; by left). by vm_compute.
  - rewrite Hkeep by (apply Hnever; by right). by vm_compute.
  - intros k Hid Hcat. split.
    + intros Hsome. destruct (existsb (assigns k) body) eqn:Hex; [done|].
      rewrite (Hkeep k Hex) in Hsome. simpl in Hsome.
      rewrite !decide_False in Hsome by done. by destruct Hsome.
    + apply (Hkeys k).
Qed.
End BookSAXHandler_facts.

(** ** [StatisticsSAXHandler] *)

Lemma count_set (d : dict Z) (k c : pystr) (v : Z) :
  StatisticsSAXHandler.count (dict_set d k v) c
  = if decide (k = c) then v else StatisticsSAXHandler.count d c.
Proof.
  unfold StatisticsSAXHandler.count. case_decide as Hk.
  - subst. by rewrite dict_get_set_eq.
  - by rewrite dict_get_set_ne.
Qed.

Lemma total_cons (k : pystr) (v : Z) (d : dict Z) :
  total ((k, v) :: d) = (v + total d)%Z.
Proof. reflexivity. Qed.

Lemma total_set (d : dict Z) (k : pystr) :
  total (dict_set d k (StatisticsSAXHandler.count d k + 1)%Z)
  = (total d + 1)%Z.
Proof.
  induction d as [|[k' v'] d IH].
  - reflexivity.
  - unfold StatisticsSAXHandler.count in *. simpl dict_set. simpl dict_get.
    destruct (decide (k' = k)) as [->|Hne].
    + rewrite !total_cons. simpl. lia.
    + rewrite !total_cons, IH. lia.
Qed.

Section StatisticsSAXHandler_facts.
Context {F : Type} (float : pystr → option F) (int : pystr → option Z).
Context (fadd : F → F → F).

Abbreviation stats := (StatisticsSAXHandler.handler F).
Abbreviation sparse := (StatisticsSAXHandler.parse float int fadd).
Abbreviation shandle := (StatisticsSAXHandler.handle float int fadd).

Lemma stats_parse_app (self : stats) (es1 es2 : list event) :
  sparse self (es1 ++ es2)
  = match sparse self es1 with
    | inr self1 => sparse self1 es2
    | inl exn => inl exn
    end.
Proof.
  revert self. induction es1 as [|e es1 IH]; intros self; simpl; [done|].
  by destruct (shandle self e).
Qed.

Lemma stats_handle_resets (self self1 : stats) (e : event) :
  is_characters e = false → shandle self e = inr self1 →
  StatisticsSAXHandler.current_content self1 = [].
Proof.
  destruct e as [name attrs|content|name]; simpl; [|done|].
  - intros _ [= <-]. unfold StatisticsSAXHandler.startElement.
    by case_decide.
  - intros _. unfold StatisticsSAXHandler.endElement.
    repeat case_decide; try (by intros [= <-]).
    + destruct (float _); [by intros [= <-]|done].
    + destruct (int _); [by intros [= <-]|done].
Qed.

Lemma stats_parse_characters (self : stats) (chunks : list pystr) :
  ∃ self1,
    sparse self (Characters <$> chunks) = inr self1
    ∧ StatisticsSAXHandler.current_content self1
      = StatisticsSAXHandler.current_content self ++ joined chunks
    ∧ StatisticsSAXHandler.newest_year self1
      = StatisticsSAXHandler.newest_year self
    ∧ StatisticsSAXHandler.authors self1 = StatisticsSAXHandler.authors self.
Proof.
  revert self. induction chunks as [|c chunks IH]; intros self; simpl.
  - exists self. by rewrite app_nil_r.
  - destruct (IH (StatisticsSAXHandler.characters self c))
      as (self1 & Hp & Hc & Hy & Ha).
    exists self1. split; [exact Hp|]. rewrite Hc, Hy, Ha. simpl.
    unfold joined. simpl. by rewrite app_assoc.
Qed.

(** X10.  [total_books] counts the [book] start tags; the count of a
    category counts the [book] start tags with that category, ['unknown']
    for a tag without one; and the counts of all categories add up to
    [total_books]. *)
Theorem stats_counts (self self1 : stats) (es : list event) :
  sparse self es = inr self1 →
  StatisticsSAXHandler.total_books self1
  = (StatisticsSAXHandler.total_books self
     + Z.of_nat (length (book_categories es)))%Z
  ∧ (∀ c, StatisticsSAXHandler.count
            (StatisticsSAXHandler.categories self1) c
          = (StatisticsSAXHandler.count
               (StatisticsSAXHandler.categories self) c
             + Z.of_nat (length (filter (λ c', c' = c)
                                        (book_categories es))))%Z)
  ∧ total (StatisticsSAXHandler.categories self1)
    = (total (StatisticsSAXHandler.categories self)
       + Z.of_nat (length (book_categories es)))%Z.
Proof.
  revert self. induction es as [|e es IH]; intros self; simpl.
  - intros [= <-]. repeat split; intros; lia.
  - destruct (shandle self e) as [exn|self0] eqn:Hh; [done|].
    intros Hrest. destruct (IH self0 Hrest) as (Ht & Hc & Hs).
    rewrite Ht, Hs. setoid_rewrite Hc. clear Hrest Ht Hc Hs.
    destruct e as [name attrs|content|name]; simpl in Hh.
    + injection Hh as <-. unfold StatisticsSAXHandler.startElement.
      destruct (decide (name = str "book")) as [->|Hne]; simpl.
      * rewrite total_set. split; [lia|]. split; [|lia].
        intros c. rewrite count_set.
        destruct (decide (default (str "unknown")
                            (dict_get attrs (str "category")) = c))
          as [Hc|Hc].
        -- rewrite filter_cons_True by done. simpl. subst c. lia.
        -- rewrite filter_cons_False by done. lia.
      * repeat split; intros; lia.
    + injection Hh as <-. simpl. repeat split; intros; lia.
    + unfold StatisticsSAXHandler.endElement in Hh.
      repeat case_decide;
        try (injection Hh as <-; simpl; repeat split; intros; lia).
      * destruct (float _); [|done]. injection Hh as <-. simpl.
        repeat split; intros; lia.
      * destruct (int _); [|done]. injection Hh as <-. simpl.
        repeat split; intros; lia.
Qed.

Lemma stats_handle_grows (self self1 : stats) (e : event) :
  shandle self e = inr self1 →
  (StatisticsSAXHandler.newest_year self
   ≤ StatisticsSAXHandler.newest_year self1)%Z
  ∧ StatisticsSAXHandler.authors self ⊆ StatisticsSAXHandler.authors self1.
Proof.
  destruct e as [name attrs|content|name]; simpl.
  - intros [= <-]. unfold StatisticsSAXHandler.startElement.
    by case_decide.
  - by intros [= <-].
  - unfold StatisticsSAXHandler.endElement.
    repeat case_decide; try (by intros [= <-]).
    + destruct (float _); [by intros [= <-]|done].
    + destruct (int _); [|done]. intros [= <-]. simpl. split; [lia|done].
    + intros [= <-]. simpl. split; [done|set_solver].
Qed.

Lemma stats_parse_grows (self self1 : stats) (es : list event) :
  sparse self es = inr self1 →
  (StatisticsSAXHandler.newest_year self
   ≤ StatisticsSAXHandler.newest_year self1)%Z
  ∧ StatisticsSAXHandler.authors self ⊆ StatisticsSAXHandler.authors self1.
Proof.
  revert self. induction es as [|e es IH]; intros self; simpl.
  - by intros [= <-].
  - destruct (shandle self e) as [exn|self0] eqn:Hh; [done|].
    intros Hrest. destruct (stats_handle_grows _ _ _ Hh) as [Hy Ha].
    destruct (IH self0 Hrest) as [Hy' Ha']. split; [lia|by etrans].
Qed.

(** The handler at an end tag, after the character data received since the
    most recent start or end tag. *)
Lemma stats_before_end (self self1 : stats) (es rest : list event)
    (e : event) (chunks : list pystr) (name : pystr) :
  is_characters e = false →
  sparse self (es ++ e :: (Characters <$> chunks) ++ EndElement name :: rest)
  = inr self1 →
  ∃ self2 self3,
    sparse self (es ++ e :: (Characters <$> chunks)) = inr self2
    ∧ StatisticsSAXHandler.current_content self2 = joined chunks
    ∧ StatisticsSAXHandler.endElement float int fadd self2 name = inr self3
    ∧ sparse self3 rest = inr self1
    ∧ (StatisticsSAXHandler.newest_year self
       ≤ StatisticsSAXHandler.newest_year self2)%Z
    ∧ StatisticsSAXHandler.authors self
      ⊆ StatisticsSAXHandler.authors self2.
Proof.
  intros He.
  replace (es ++ e :: (Characters <$> chunks) ++ EndElement name :: rest)
    with ((es ++ [e]) ++ (Characters <$> chunks) ++ EndElement name :: rest)
    by (by rewrite <- app_assoc).
  replace (es ++ e :: (Characters <$> chunks))
    with ((es ++ [e]) ++ (Characters <$> chunks))
    by (by rewrite <- app_assoc).
  rewrite !(stats_parse_app _ (es ++ [e])).
  destruct (sparse self (es ++ [e])) as [exn|self0] eqn:Hpre; [done|].
  rewrite stats_parse_app.
  destruct (stats_parse_characters self0 chunks) as (self2 & -> & Hc & Hy & Ha).
  simpl.
  destruct (StatisticsSAXHandler.endElement float int fadd self2 name)
    as [exn|self3] eqn:Hend; [done|].
  intros Hrest. exists self2, self3. split; [done|].
  destruct (stats_parse_grows _ _ _ Hpre) as [Hy0 Ha0].
  rewrite Hc, Hy, Ha. repeat split; try done.
  rewrite stats_parse_app in Hpre.
  destruct (sparse self es) as [exn|self'] eqn:Hes; [done|]. simpl in Hpre.
  destruct (shandle self' e) as [exn|self''] eqn:Hh; [done|].
  injection Hpre as <-. by rewrite (stats_handle_resets _ _ _ He Hh).
Qed.

(** X11.  At the end tag of [published] the handler converts the character
    data received since the most recent start or end tag with [int]; when
    the parse returns, that year is at most [newest_year], and [newest_year]
    is not below what it was before. *)
Theorem stats_newest_year (self self1 : stats) (es rest : list event)
    (e : event) (chunks : list pystr) :
  is_characters e = false →
  sparse self (es ++ e :: (Characters <$> chunks)
                  ++ EndElement (str "published") :: rest)
  = inr self1 →
  ∃ year,
    int (joined chunks) = Some year
    ∧ (year ≤ StatisticsSAXHandler.newest_year self1)%Z
    ∧ (StatisticsSAXHandler.newest_year self
       ≤ StatisticsSAXHandler.newest_year self1)%Z.
Proof.
  intros He Hparse.
  destruct (stats_before_end _ _ _ _ _ _ _ He Hparse)
    as (self2 & self3 & _ & Hc & Hend & Hrest & Hy & _).
  destruct (stats_parse_grows _ _ _ Hrest) as [Hy' _].
  unfold StatisticsSAXHandler.endElement in Hend. simpl in Hend.
  rewrite Hc in Hend.
  destruct (int (joined chunks)) as [year|]; [|done].
  injection Hend as <-. simpl in Hy'. exists year. split; [done|]. lia.
Qed.

(** X12.  At the end tag of [author] the handler adds the character data
    received since the most recent start or end tag to [authors], also when
    it is empty; no author is ever taken out. *)
Theorem stats_author_added (self self1 : stats) (es rest : list event)
    (e : event) (chunks : list pystr) :
  is_characters e = false →
  sparse self (es ++ e :: (Characters <$> chunks)
                  ++ EndElement (str "author") :: rest)
  = inr self1 →
  joined chunks ∈ StatisticsSAXHandler.authors self1
  ∧ StatisticsSAXHandler.authors self ⊆ StatisticsSAXHandler.authors self1.
Proof.
  intros He Hparse.
  destruct (stats_before_end _ _ _ _ _ _ _ He Hparse)
    as (self2 & self3 & _ & Hc & Hend & Hrest & _ & Ha).
  destruct (stats_parse_grows _ _ _ Hrest) as [_ Ha'].
  unfold StatisticsSAXHandler.endElement in Hend. simpl in Hend.
  rewrite Hc in Hend. injection Hend as <-. simpl in Ha'.
  split; set_solver.
Qed.
End StatisticsSAXHandler_facts.

(** ** The two handlers on the same document *)

(** X13.  On a list of calls with as many [book] end tags as [book] start
    tags, as every document gives, the two handlers agree: when both parses
    return, [total_books] of the one is the length of [books] of the
    other. *)
Theorem handlers_agree_on_books {F} (float : pystr → option F)
    (int : pystr → option Z) (fzero : F) (fadd : F → F → F)
    (es : list event) (b : BookSAXHandler.handler F)
    (s : StatisticsSAXHandler.handler F) :
  length (book_categories es) = book_ends es →
  BookSAXHandler.parse float BookSAXHandler.init es = inr b →
  StatisticsSAXHandler.parse float int fadd
                             (StatisticsSAXHandler.init fzero) es
  = inr s →
  StatisticsSAXHandler.total_books s
  = Z.of_nat (length (BookSAXHandler.books b)).
Proof.
  intros Hbalanced Hb Hs.
  destruct (book_list_grows float _ _ _ Hb) as (new & -> & Hlen).
  destruct (stats_counts float int fadd _ _ _ Hs) as (-> & _ & _).
  simpl. rewrite Hlen. lia.
Qed.

(** ** The handlers on the sample calls *)

Lemma book_text_field_recorded_witness :
  BookSAXHandler.parse Sample.sample_float BookSAXHandler.init
    (Sample.before_title
     ++ StartElement (str "title") []
        :: (Characters <$> Sample.title_pieces) ++ [EndElement (str "title")])
  = inr {| BookSAXHandler.books :=
             BookSAXHandler.books
               (Sample.book_handler_after
                  (Sample.before_title ++ [StartElement (str "title") []]));
           BookSAXHandler.current_book :=
             dict_set
               (BookSAXHandler.current_book
                  (Sample.book_handler_after
                     (Sample.before_title ++ [StartElement (str "title") []])))
               (str "title")
               (BookSAXHandler.IStr (joined Sample.title_pieces));
           BookSAXHandler.current_tag :=
             BookSAXHandler.current_tag
               (Sample.book_handler_after
                  (Sample.before_title ++ [StartElement (str "title") []]));
           BookSAXHandler.current_content := [] |}.
Proof.
  apply (book_text_field_recorded Sample.sample_float BookSAXHandler.init).
  - unfold BookSAXHandler.text_fields. by left.
  - reflexivity.
  - vm_compute. reflexivity.
Defined.

Lemma book_price_recorded_witness :
  BookSAXHandler.parse Sample.sample_float BookSAXHandler.init
    (Sample.before_price
     ++ StartElement (str "price") [(str "currency", str "USD")]
        :: (Characters <$> [str "29.99"])
        ++ EndElement (str "price") :: Sample.after_published)
  = match Sample.sample_float (joined [str "29.99"]) with
    | Some x =>
        BookSAXHandler.parse Sample.sample_float
          {| BookSAXHandler.books :=
               BookSAXHandler.books
                 (Sample.book_handler_after
                    (Sample.before_price
                     ++ [StartElement (str "price")
                                      [(str "currency", str "USD")]]));
             BookSAXHandler.current_book :=
               dict_set
                 (BookSAXHandler.current_book
                    (Sample.book_handler_after
                       (Sample.before_price
                        ++ [StartElement (str "price")
                                         [(str "currency", str "USD")]])))
                 (str "price") (BookSAXHandler.IFloat x);
             BookSAXHandler.current_tag :=
               BookSAXHandler.current_tag
                 (Sample.book_handler_after
                    (Sample.before_price
                     ++ [StartElement (str "price")
                                      [(str "currency", str "USD")]]));
             BookSAXHandler.current_content := [] |}
          Sample.after_published
    | None => inl ValueError
    end.
Proof.
  apply (book_price_recorded Sample.sample_float BookSAXHandler.init).
  - reflexivity.
  - vm_compute. reflexivity.
Defined.

Lemma book_list_grows_witness :
  ∃ new,
    BookSAXHandler.books (Sample.book_handler_after Sample.one_book)
    = BookSAXHandler.books (BookSAXHandler.init (F := pystr)) ++ new
    ∧ length new = book_ends Sample.one_book.
Proof.
  apply (book_list_grows Sample.sample_float BookSAXHandler.init
                         (Sample.book_handler_after Sample.one_book)
                         Sample.one_book).
  vm_compute. reflexivity.
Defined.

Lemma book_record_independent_witness :
  ∃ self2' new,
    BookSAXHandler.parse Sample.sample_float
      (Sample.book_handler_after Sample.one_book)
      (StartElement (str "book") [(str "id", str "7")]
       :: [StartElement (str "title") []; Characters (str "X");
           EndElement (str "title"); EndElement (str "book")])
    = inr self2'
    ∧ BookSAXHandler.books
        (Sample.book_handler_after
           (StartElement (str "book") [(str "id", str "7")]
            :: [StartElement (str "title") []; Characters (str "X");
                EndElement (str "title"); EndElement (str "book")]))
      = BookSAXHandler.books (BookSAXHandler.init (F := pystr)) ++ new
    ∧ BookSAXHandler.books self2'
      = BookSAXHandler.books (Sample.book_handler_after Sample.one_book)
        ++ new
    ∧ BookSAXHandler.current_book
        (Sample.book_handler_after
           (StartElement (str "book") [(str "id", str "7")]
            :: [StartElement (str "title") []; Characters (str "X");
                EndElement (str "title"); EndElement (str "book")]))
      = BookSAXHandler.current_book self2'
    ∧ BookSAXHandler.current_content
        (Sample.book_handler_after
           (StartElement (str "book") [(str "id", str "7")]
            :: [StartElement (str "title") []; Characters (str "X");
                EndElement (str "title"); EndElement (str "book")]))
      = BookSAXHandler.current_content self2'.
Proof.
  apply (book_record_independent Sample.sample_float BookSAXHandler.init).
  vm_compute. reflexivity.
Defined.

Lemma stats_counts_witness :
  StatisticsSAXHandler.total_books (Sample.stats_handler_after Sample.one_book)
  = (StatisticsSAXHandler.total_books
       (StatisticsSAXHandler.init (str "0.0"))
     + Z.of_nat (length (book_categories Sample.one_book)))%Z
  ∧ (∀ c, StatisticsSAXHandler.count
            (StatisticsSAXHandler.categories
               (Sample.stats_handler_after Sample.one_book)) c
          = (StatisticsSAXHandler.count
               (StatisticsSAXHandler.categories
                  (StatisticsSAXHandler.init (str "0.0"))) c
             + Z.of_nat (length (filter (λ c', c' = c)
                                        (book_categories Sample.one_book))))%Z)
  ∧ total (StatisticsSAXHandler.categories
             (Sample.stats_handler_after Sample.one_book))
    = (total (StatisticsSAXHandler.categories
                (StatisticsSAXHandler.init (str "0.0")))
       + Z.of_nat (length (book_categories Sample.one_book)))%Z.
Proof.
  apply (stats_counts Sample.sample_float Sample.sample_int
                      Sample.sample_fadd).
  vm_compute. reflexivity.
Defined.

Lemma stats_newest_year_witness :
  ∃ year,
    Sample.sample_int (joined [str "2008"]) = Some year
    ∧ (year ≤ StatisticsSAXHandler.newest_year
                (Sample.stats_handler_after Sample.one_book))%Z
    ∧ (StatisticsSAXHandler.newest_year
         (StatisticsSAXHandler.init (str "0.0"))
       ≤ StatisticsSAXHandler.newest_year
           (Sample.stats_handler_after Sample.one_book))%Z.
Proof.
  apply (stats_newest_year Sample.sample_float Sample.sample_int
           Sample.sample_fadd (StatisticsSAXHandler.init (str "0.0"))
           (Sample.stats_handler_after Sample.one_book)
           Sample.before_published Sample.after_published
           (StartElement (str "published") []) [str "2008"]).
  - reflexivity.
  - vm_compute. reflexivity.
Defined.

Lemma stats_author_added_witness :
  joined [str "Robert C. Martin"]
  ∈ StatisticsSAXHandler.authors
      (Sample.stats_handler_after
         (Sample.before_author
          ++ StartElement (str "author") []
             :: (Characters <$> [str "Robert C. Martin"])
             ++ EndElement (str "author") :: Sample.after_published))
  ∧ StatisticsSAXHandler.authors (StatisticsSAXHandler.init (str "0.0"))
    ⊆ StatisticsSAXHandler.authors
        (Sample.stats_handler_after
           (Sample.before_author
            ++ StartElement (str "author") []
               :: (Characters <$> [str "Robert C. Martin"])
               ++ EndElement (str "author") :: Sample.after_published)).
Proof.
  apply (stats_author_added Sample.sample_float Sample.sample_int
           Sample.sample_fadd (StatisticsSAXHandler.init (str "0.0")) _
           Sample.before_author Sample.after_published
           (StartElement (str "author") []) [str "Robert C. Martin"]).
  - reflexivity.
  - vm_compute. reflexivity.
Defined.

Lemma handlers_agree_on_books_witness :
  StatisticsSAXHandler.total_books (Sample.stats_handler_after Sample.one_book)
  = Z.of_nat (length (BookSAXHandler.books
                        (Sample.book_handler_after Sample.one_book))).
Proof.
  apply (handlers_agree_on_books Sample.sample_float Sample.sample_int
           (str "0.0") Sample.sample_fadd Sample.one_book).
  - vm_compute. reflexivity.
  - vm_compute. reflexivity.
  - vm_compute. reflexivity.
Defined.

Lemma book_record_keys_witness :
  ∃ record,
    BookSAXHandler.books
      (Sample.book_handler_after
         (StartElement (str "book")
                       [(str "id", str "1");
                        (str "category", str "programming")]
            :: Sample.book_body ++ [EndElement (str "book")]))
    = BookSAXHandler.books (BookSAXHandler.init (F := pystr)) ++ [record]
    ∧ dict_get record (str "id")
      = Some (BookSAXHandler.get
                [(str "id", str "1"); (str "category", str "programming")]
                (str "id"))
    ∧ dict_get record (str "category")
      = Some (BookSAXHandler.get
                [(str "id", str "1"); (str "category", str "programming")]
                (str "category"))
    ∧ ∀ k, k ≠ str "id" → k ≠ str "category" →
           (is_Some (dict_get record k)
            ↔ existsb (assigns k) Sample.book_body = true).
Proof.
  apply (book_record_keys Sample.sample_float BookSAXHandler.init).
  - vm_compute. reflexivity.
  - vm_compute. reflexivity.
Defined.
